(** * Incident parser: a shallow embedding of [tools/incident_tools.py], of
  the endpoints of [main.py] that parse, and of the agent between them
  ([stark/agent.py], [stark/instructions.py]), with the properties of the
  structured extraction engine.

  Python text is a sequence of Unicode code points and is modelled as
  [list N].  Regular expressions are modelled by a backtracking matcher that
  returns the successes in the priority order of Python's [re] module.
  The clock ([datetime.now()]) is an argument of every function that reads
  it; one invocation reads one clock value.  The generative service is an
  argument too: a function from the request to what the call did. *)

From Stdlib Require Import NArith ZArith List String Ascii Bool Lia.
From stdpp Require Import gmap list.

Set Warnings "-register-all".
Local Open Scope N_scope.

(** ** Code points, classification and case mapping *)

Module Unicode.

Definition char := N.
Definition str := list N.

Definition in_range (lo hi c : N) : bool := (lo <=? c) && (c <=? hi).

(** [Py_UNICODE_ISSPACE]: what [\s], [str.strip] and [str.split] call white
    space.  The list is the complete one of CPython. *)
Definition isspace (c : char) : bool :=
  in_range 9 13 c || in_range 28 32 c || (c =? 133) || (c =? 160)
  || (c =? 5760) || in_range 8192 8202 c || (c =? 8232) || (c =? 8233)
  || (c =? 8239) || (c =? 8287) || (c =? 12288).

(** Case mapping and the class [\w] are those of Python on the Basic Latin
    and Latin-1 blocks (U+0000 to U+00FF), the repertoire of Portuguese and
    English text, together with U+0178, the capital of U+00FF.  Other code
    points are taken as caseless and as no word characters.  The class [\d]
    is the whole of Python's. *)
Definition tolower (c : char) : char :=
  if in_range 65 90 c then c + 32
  else if in_range 192 222 c && negb (c =? 215) then c + 32
  else if c =? 376 then 255
  else c.

Definition toupper (c : char) : char :=
  if in_range 97 122 c then c - 32
  else if in_range 224 254 c && negb (c =? 247) then c - 32
  else if c =? 255 then 376
  else c.

(** The first code points of the 66 blocks of decimal digits of Unicode
    (category Nd, version 14), each of ten digits from zero to nine: the
    characters that [\d] matches and that [int] reads. *)
Definition digit_blocks : list N :=
  [ 48; 1632; 1776; 1984; 2406; 2534; 2662; 2790; 2918; 3046; 3174; 3302; 3430;
    3558; 3664; 3792; 3872; 4160; 4240; 6112; 6160; 6470; 6608; 6784; 6800; 6992;
    7088; 7232; 7248; 42528; 43216; 43264; 43472; 43504; 43600; 44016; 65296;
    66720; 68912; 69734; 69872; 69942; 70096; 70384; 70736; 70864; 71248; 71360;
    71472; 71904; 72016; 72784; 73040; 73120; 92768; 92864; 93008; 120782;
    120792; 120802; 120812; 120822; 123200; 123632; 125264; 130032 ].

Definition in_block (c : char) (b : N) : bool := in_range b (b + 9) c.

Definition isdigit (c : char) : bool := existsb (in_block c) digit_blocks.

(** [Py_UNICODE_ISALNUM] or the underscore: the word characters of [\b]. *)
Definition isword (c : char) : bool :=
  in_range 48 57 c || in_range 65 90 c || in_range 97 122 c || (c =? 95)
  || (c =? 170) || (c =? 178) || (c =? 179) || (c =? 181) || (c =? 185)
  || (c =? 186) || in_range 188 190 c || in_range 192 214 c
  || in_range 216 246 c || in_range 248 255 c || (c =? 376).

(** Decoding of UTF-8, used to write the literals of the source as they are
    written there. *)
Fixpoint utf8_decode (bs : list N) : str :=
  match bs with
  | [] => []
  | b :: tl =>
      if b <? 128 then b :: utf8_decode tl
      else if b <? 224 then
        match tl with
        | b1 :: tl' => ((b - 192) * 64 + (b1 - 128)) :: utf8_decode tl'
        | _ => [b]
        end
      else if b <? 240 then
        match tl with
        | b1 :: b2 :: tl' =>
            ((b - 224) * 4096 + (b1 - 128) * 64 + (b2 - 128)) :: utf8_decode tl'
        | _ => [b]
        end
      else
        match tl with
        | b1 :: b2 :: b3 :: tl' =>
            ((b - 240) * 262144 + (b1 - 128) * 4096 + (b2 - 128) * 64 + (b3 - 128))
              :: utf8_decode tl'
        | _ => [b]
        end
  end.

Definition py (s : string) : str :=
  utf8_decode (map N_of_ascii (list_ascii_of_string s)).

(** Literals are compared as they are written; their code points are
    computed only where a proof asks for it. *)
#[global] Opaque py.

End Unicode.
Export Unicode.

(** ** The operations of [str] that the source uses *)

Module Str.

Definition lower (s : str) : str := map tolower s.

Fixpoint lstrip (s : str) : str :=
  match s with
  | c :: tl => if isspace c then lstrip tl else s
  | [] => []
  end.

Definition rstrip (s : str) : str := rev (lstrip (rev s)).

(** [s.strip()] *)
Definition strip (s : str) : str := rstrip (lstrip s).

Fixpoint startswith (p s : str) : bool :=
  match p, s with
  | [], _ => true
  | a :: p', b :: s' => (a =? b) && startswith p' s'
  | _ :: _, [] => false
  end.

(** [s.endswith(p)] *)
Definition endswith (p s : str) : bool := startswith (rev p) (rev s).

(** [w in s]: [w] occurs in [s] as a contiguous block. *)
Fixpoint contains (w s : str) : bool :=
  startswith w s ||
  match s with
  | [] => false
  | _ :: tl => contains w tl
  end.

(** [s.capitalize()]: the first character in upper case (U+00DF becomes the
    two letters Ss, U+00B5 the Greek capital U+039C), the rest in lower
    case. *)
Definition capitalize (s : str) : str :=
  match s with
  | [] => []
  | c :: tl =>
      (if c =? 223 then [83; 115] else if c =? 181 then [924] else [toupper c])
        ++ lower tl
  end.

(** [s[:n] + "..." if len(s) > n else s] *)
Definition truncated (n : nat) (s : str) : str :=
  if (n <? length s)%nat then take n s ++ py "..." else s.

(** The value of a decimal digit: its place in its block. *)
Definition digit_value (c : char) : N :=
  match find (in_block c) digit_blocks with
  | Some b => c - b
  | None => 0
  end.

(** [int(s)] on a text of decimal digits; [None] stands for the
    [ValueError] Python raises on any other text that the extractors can
    pass, the empty one included. *)
Definition int_of (s : str) : option N :=
  match s with
  | [] => None
  | _ => if forallb isdigit s
         then Some (fold_left (fun acc c => 10 * acc + digit_value c) s 0)
         else None
  end.

(** Decimal digits of a number, most significant first, padded with zeros
    to [width] digits as [%02d] and [%04d] do. *)
Fixpoint digits_of (fuel : nat) (n : N) (acc : str) : str :=
  match fuel with
  | O => acc
  | S fuel' =>
      let acc' := (48 + n mod 10) :: acc in
      if n <? 10 then acc' else digits_of fuel' (n / 10) acc'
  end.

Definition pad (width : nat) (n : N) : str :=
  let ds := digits_of (S (N.size_nat n)) n [] in
  replicate (width - length ds) 48 ++ ds.

End Str.

(** ** Regular expressions: the fragment of Python's [re] that the source uses

  The matcher returns every way a pattern can match at a position, first
  the one that Python's backtracking engine finds first: alternatives from
  left to right, a greedy repetition from its longest extent down, a lazy
  one from its shortest up.  [re.search] takes the first success at the
  first position that has one. *)

Module Re.

(** What matches one character. *)
Inductive cls :=
| Lit (c : char)               (* the character itself *)
| Space                        (* \s *)
| Digit                        (* \d *)
| Range (lo hi : char)         (* lo-hi inside a set *)
| OneOf (l : list cls)         (* [...] *)
| NoneOf (l : list cls).       (* [^...] *)

Inductive regex :=
| Eps
| One (k : cls)
| Seq (a b : regex)
| Alt (a b : regex)
| Opt (a : regex)                                          (* a? *)
| Rep (k : cls) (lo : nat) (hi : option nat) (greedy : bool) (* k{lo,hi} *)
| Grp (n : nat) (a : regex)                                (* (a), group n *)
| WordB.                                                   (* \b *)

(** [ic] is the flag [re.IGNORECASE]: a character matches when its lower
    case is the lower case of a character of the set. *)
Fixpoint cls_match (ic : bool) (k : cls) (c : char) : bool :=
  match k with
  | Lit x => if ic then tolower c =? tolower x else c =? x
  | Space => isspace c
  | Digit => isdigit c
  | Range lo hi =>
      if ic then in_range lo hi (tolower c) || in_range lo hi (toupper (tolower c))
      else in_range lo hi c
  | OneOf l => existsb (fun k' => cls_match ic k' c) l
  | NoneOf l => negb (existsb (fun k' => cls_match ic k' c) l)
  end.

(** A position in the text: the characters before it, last one first, and
    those from it on. *)
Record cursor := Cursor { seen : str; rest : str }.

Definition captures := list (nat * str).

Definition mstate : Type := cursor * captures.

Definition advance (j : nat) (cur : cursor) : cursor :=
  Cursor (rev (take j (rest cur)) ++ seen cur) (drop j (rest cur)).

(** The number of leading characters of [s] that [k] matches, at most
    [hi]. *)
Fixpoint span (ic : bool) (k : cls) (hi : option nat) (s : str) : nat :=
  match hi, s with
  | Some O, _ => O
  | _, [] => O
  | _, c :: tl =>
      if cls_match ic k c then S (span ic k (Nat.pred <$> hi) tl) else O
  end.

Definition extents (lo top : nat) (greedy : bool) : list nat :=
  let up := seq lo (S top - lo) in
  if greedy then rev up else up.

Definition at_boundary (cur : cursor) : bool :=
  let before := match seen cur with c :: _ => isword c | [] => false end in
  let after := match rest cur with c :: _ => isword c | [] => false end in
  xorb before after.

Definition set_group (n : nat) (from to : cursor) (cs : captures) : captures :=
  (n, take (length (rest from) - length (rest to)) (rest from)) :: cs.

Fixpoint run (ic : bool) (r : regex) (st : mstate) : list mstate :=
  match r with
  | Eps => [st]
  | One k =>
      match rest st.1 with
      | c :: _ => if cls_match ic k c then [(advance 1 st.1, st.2)] else []
      | [] => []
      end
  | Seq a b => run ic a st ≫= run ic b
  | Alt a b => run ic a st ++ run ic b st
  | Opt a => run ic a st ++ [st]
  | Rep k lo hi greedy =>
      (fun j => (advance j st.1, st.2))
        <$> extents lo (span ic k hi (rest st.1)) greedy
  | Grp n a =>
      (fun st' : mstate => (st'.1, set_group n st.1 st'.1 st'.2)) <$> run ic a st
  | WordB => if at_boundary st.1 then [st] else []
  end.

(** The literal text [s]. *)
Definition text (s : str) : regex :=
  foldr (fun c r => Seq (One (Lit c)) r) Eps s.

Fixpoint ngroups (r : regex) : nat :=
  match r with
  | Seq a b | Alt a b => ngroups a + ngroups b
  | Opt a => ngroups a
  | Grp _ a => S (ngroups a)
  | _ => O
  end.

(** A match object: where the match starts and ends, and what its groups
    hold. *)
Record match_obj := Match
  { m_pattern : regex; m_begin : cursor; m_end : cursor; m_caps : captures }.

Fixpoint lookup_group (n : nat) (cs : captures) : option str :=
  match cs with
  | [] => None
  | (k, w) :: tl => if (k =? n)%nat then Some w else lookup_group n tl
  end.

(** [m.group(n)] for [n >= 1]: [None] outside the pattern's groups (Python
    raises [IndexError]), [Some None] for a group that took no part in the
    match (Python returns [None]). *)
Definition group (m : match_obj) (n : nat) : option (option str) :=
  if ((1 <=? n) && (n <=? ngroups (m_pattern m)))%nat
  then Some (lookup_group n (m_caps m)) else None.

(** [len(m.groups())] *)
Definition groups_len (m : match_obj) : nat := ngroups (m_pattern m).

Fixpoint search_at (ic : bool) (r : regex) (sn rs : str) : option match_obj :=
  match run ic r (Cursor sn rs, []) with
  | st :: _ => Some (Match r (Cursor sn rs) st.1 st.2)
  | [] =>
      match rs with
      | [] => None
      | c :: tl => search_at ic r (c :: sn) tl
      end
  end.

(** [re.search(r, s)], with [re.IGNORECASE] when [ic]. *)
Definition search (ic : bool) (r : regex) (s : str) : option match_obj :=
  search_at ic r [] s.

(** [re.sub(r, repl, s)] for a replacement without group references.
    [skip] counts the characters of the current match still to pass.  The
    patterns that the source substitutes consume a character whenever they
    match; on an empty match the replacement is inserted and the next
    character copied. *)
Fixpoint sub_at (ic : bool) (r : regex) (repl : str) (skip : nat) (sn rs : str)
  : str :=
  match skip, rs with
  | S k, c :: tl => sub_at ic r repl k (c :: sn) tl
  | S _, [] => []
  | O, _ =>
      match run ic r (Cursor sn rs, []) with
      | st :: _ =>
          repl ++
          match (length rs - length (rest st.1))%nat, rs with
          | S k, c :: tl => sub_at ic r repl k (c :: sn) tl
          | O, c :: tl => c :: sub_at ic r repl O (c :: sn) tl
          | _, [] => []
          end
      | [] =>
          match rs with
          | c :: tl => c :: sub_at ic r repl O (c :: sn) tl
          | [] => []
          end
      end
  end.

Definition sub (ic : bool) (r : regex) (repl s : str) : str :=
  sub_at ic r repl O [] s.

(** Shorthands that follow the concrete syntax. *)
Definition star (k : cls) : regex := Rep k 0 None true.
Definition plus (k : cls) : regex := Rep k 1 None true.
Definition plus_lazy (k : cls) : regex := Rep k 1 None false.
Definition between (k : cls) (lo hi : nat) : regex := Rep k lo (Some hi) true.

Fixpoint seqs (l : list regex) : regex :=
  match l with
  | [] => Eps
  | [a] => a
  | a :: tl => Seq a (seqs tl)
  end.

Fixpoint alts (l : list regex) : regex :=
  match l with
  | [] => Eps
  | [a] => a
  | a :: tl => Alt a (alts tl)
  end.

End Re.


(** ** Exceptions *)

Module Py.

(** The exceptions that the modelled code can meet; each carries the text
    that [str(e)] returns. *)
Inductive exn :=
| ValueError (msg : str)
| TypeError (msg : str)
| AttributeError (msg : str)
| IndexError (msg : str)
| JSONDecodeError (msg : str)
| TransportError (msg : str)    (* what httpx raises: no route, timeout, ... *)
| OverflowError (msg : str).

Definition exn_str (e : exn) : str :=
  match e with
  | ValueError m | TypeError m | AttributeError m | IndexError m
  | JSONDecodeError m | TransportError m | OverflowError m => m
  end.

Inductive result (A : Type) :=
| Ok (a : A)
| Raise (e : exn).
Arguments Ok {A} a.
Arguments Raise {A} e.

Definition bind {A B} (x : result A) (f : A -> result B) : result B :=
  match x with
  | Ok a => f a
  | Raise e => Raise e
  end.

Definition raises {A} (x : result A) : bool :=
  match x with Ok _ => false | Raise _ => true end.

End Py.
Export Py.

Notation "x <- e1 ;; e2" := (Py.bind e1 (fun x => e2))
  (at level 100, e1 at next level, right associativity).

(** ** [datetime]: the calendar date and the time of day to the minute, which
    is all that the formats of the source show.  The subtraction of days is
    that of the proleptic Gregorian calendar, with the [OverflowError] that
    Python raises below the first day of the year 1; nothing in the source
    goes forward in time, and the upper bound (the year 9999) is not
    modelled. *)

Module Datetime.

Record datetime := Datetime
  { year : N; month : N; day : N; hour : N; minute : N }.

Definition is_leap (y : N) : bool :=
  (y mod 4 =? 0) && (negb (y mod 100 =? 0) || (y mod 400 =? 0)).

Definition days_in_month (y m : N) : N :=
  if m =? 2 then (if is_leap y then 29 else 28)
  else if (m =? 4) || (m =? 6) || (m =? 9) || (m =? 11) then 30
  else 31.

Definition day_before (d : datetime) : datetime :=
  if 1 <? day d then Datetime (year d) (month d) (day d - 1) (hour d) (minute d)
  else if 1 <? month d then
    Datetime (year d) (month d - 1) (days_in_month (year d) (month d - 1))
             (hour d) (minute d)
  else Datetime (year d - 1) 12 31 (hour d) (minute d).

(** [datetime.min], the first day of the calendar, whatever the time. *)
Definition first_day (d : datetime) : bool :=
  (year d <=? 1) && (month d =? 1) && (day d =? 1).

(** [d - timedelta(days=n)]: [n] days back, with the [OverflowError] of a
    date before the first day of the calendar. *)
Fixpoint minus_days (d : datetime) (n : nat) : result datetime :=
  match n with
  | O => Ok d
  | S k =>
      if first_day d then Raise (OverflowError (py "date value out of range"))
      else minus_days (day_before d) k
  end.

(** [d.replace(hour=h, minute=mi)] *)
Definition replace (d : datetime) (h mi : N) : result datetime :=
  if 23 <? h then Raise (ValueError (py "hour must be in 0..23"))
  else if 59 <? mi then Raise (ValueError (py "minute must be in 0..59"))
  else Ok (Datetime (year d) (month d) (day d) h mi).

(** [d.strftime("%Y-%m-%d")] *)
Definition strftime_date (d : datetime) : str :=
  Str.pad 4 (year d) ++ py "-" ++ Str.pad 2 (month d) ++ py "-" ++ Str.pad 2 (day d).

(** [d.strftime("%Y-%m-%d %H:%M")] *)
Definition strftime_minute (d : datetime) : str :=
  strftime_date d ++ py " " ++ Str.pad 2 (hour d) ++ py ":" ++ Str.pad 2 (minute d).

End Datetime.
Export Datetime.

(** ** JSON values, as [json.loads] and [response.json()] return them *)

Module Json.

Inductive json :=
| JNull
| JBool (b : bool)
| JNum (z : Z)
| JStr (s : str)
| JArr (l : list json)
| JObj (m : gmap str json).

(** [field not in v], with the [TypeError] of a value that is no container. *)
Definition not_in (field : str) (v : json) : result bool :=
  match v with
  | JObj m => Ok (bool_decide (m !! field = None))
  | JStr s => Ok (negb (Str.contains field s))
  | JArr l =>
      Ok (negb (existsb (fun x => match x with
                                  | JStr s => bool_decide (s = field)
                                  | _ => false
                                  end) l))
  | _ => Raise (TypeError (py "argument is not iterable"))
  end.

(** [v[field] = x] *)
Definition setitem (v : json) (field : str) (x : json) : result json :=
  match v with
  | JObj m => Ok (JObj (<[field := x]> m))
  | _ => Raise (TypeError (py "object does not support item assignment"))
  end.

End Json.
Export Json.

(** ** [tools/incident_tools.py] *)

Module IncidentTools.
Import Re.

Definition quote : str := [34].
Definition newline : str := [10].

(** *** The normalizer *)

(** [re.sub(r'\s+', ' ', text.strip())], [re.sub(r'\s*,\s*', ', ', text)],
    [re.sub(r'\s*\.\s*', '. ', text)], then the final period. *)
Definition spaces_pattern : regex := plus Space.
Definition comma_pattern : regex := seqs [star Space; One (Lit 44); star Space].
Definition period_pattern : regex := seqs [star Space; One (Lit 46); star Space].

Definition _basic_text_cleaning (text0 : str) : str :=
  let text1 := sub false spaces_pattern (py " ") (Str.strip text0) in
  let text2 := sub false comma_pattern (py ", ") text1 in
  let text3 := sub false period_pattern (py ". ") text2 in
  if negb (Str.endswith (py ".") text3) then text3 ++ py "." else text3.

Definition relative_dates : list str := [py "ontem"; py "hoje"; py "anteontem"].

(** [rf'\b{date}\b'] *)
Definition relative_date_pattern (date : str) : regex :=
  seqs [WordB; text date; WordB].

(** [\d{1,2}h], [\d{1,2}:\d{2}], [às \d+], [pela manhã], [à tarde],
    [à noite] *)
Definition time_indicator_patterns : list regex :=
  [ seqs [between Digit 1 2; One (Lit 104)];
    seqs [between Digit 1 2; One (Lit 58); between Digit 2 2];
    seqs [text (py "às "); plus Digit];
    text (py "pela manhã");
    text (py "à tarde");
    text (py "à noite") ].

Definition found (ic : bool) (s : str) (r : regex) : bool :=
  bool_decide (is_Some (search ic r s)).

Definition _add_missing_time_context (text0 : str) : str :=
  let has_relative_date :=
    existsb (fun date => found true text0 (relative_date_pattern date)) relative_dates in
  let has_time_info := existsb (found true text0) time_indicator_patterns in
  if has_relative_date && negb has_time_info
  then text0 ++ py " (horário não especificado)"
  else text0.

Definition relative_date_words : list str := [py "ontem"; py "hoje"; py "anteontem"].

Definition _add_date_reference (now : datetime) (text0 : str) : str :=
  if existsb (fun word => Str.contains word (Str.lower text0)) relative_date_words
  then text0 ++ py " [Referência: " ++ strftime_date now ++ py "]"
  else text0.

Definition preprocess_incident_text (now : datetime) (text0 : str) : str :=
  let processed_text := _basic_text_cleaning text0 in
  let processed_text := _add_missing_time_context processed_text in
  _add_date_reference now processed_text.

(** *** The deterministic extractor *)

(** [(\d{1,2})h(\d{2})?], [(\d{1,2}):(\d{2})], [às (\d{1,2})] *)
Definition time_patterns : list regex :=
  [ seqs [Grp 1 (between Digit 1 2); One (Lit 104); Opt (Grp 2 (between Digit 2 2))];
    seqs [Grp 1 (between Digit 1 2); One (Lit 58); Grp 2 (between Digit 2 2)];
    seqs [text (py "às "); Grp 1 (between Digit 1 2)] ].

(** [m.group(n)] where the source goes on with a method of the text. *)
Definition group_text (m : match_obj) (n : nat) : result str :=
  match group m n with
  | None => Raise (IndexError (py "no such group"))
  | Some None => Raise (AttributeError (py "'NoneType' object has no attribute"))
  | Some (Some w) => Ok w
  end.

(** [int(m.group(n))] *)
Definition group_int (m : match_obj) (n : nat) : result N :=
  match group m n with
  | None => Raise (IndexError (py "no such group"))
  | Some None => Raise (TypeError (py "int() argument must be a string"))
  | Some (Some w) =>
      match Str.int_of w with
      | Some z => Ok z
      | None => Raise (ValueError (py "invalid literal for int() with base 10"))
      end
  end.

(** Whether [m.group(n)] is a non-empty text, where the source uses it as a
    condition. *)
Definition group_true (m : match_obj) (n : nat) : result bool :=
  match group m n with
  | None => Raise (IndexError (py "no such group"))
  | Some None | Some (Some []) => Ok false
  | Some (Some (_ :: _)) => Ok true
  end.

(** The loop over [time_patterns]: the hour and the minute of the first
    pattern found in the text, [0] and [0] when there is none. *)
Fixpoint matched_time (patterns : list regex) (text_lower : str) : result (N * N) :=
  match patterns with
  | [] => Ok (0, 0)
  | pattern :: others =>
      match search false pattern text_lower with
      | Some m =>
          hour <- group_int m 1;;
          if (1 <? groups_len m)%nat then
            given <- group_true m 2;;
            if given : bool then minute <- group_int m 2;; Ok (hour, minute)
            else Ok (hour, 0)
          else Ok (hour, 0)
      | None => matched_time others text_lower
      end
  end.

Definition target_date (current_date : datetime) (text_lower : str)
  : result datetime :=
  if Str.contains (py "ontem") text_lower || Str.contains (py "yesterday") text_lower
  then minus_days current_date 1
  else if Str.contains (py "hoje") text_lower || Str.contains (py "today") text_lower
  then Ok current_date
  else if Str.contains (py "anteontem") text_lower
  then minus_days current_date 2
  else Ok current_date.

Definition _extract_date_info (now : datetime) (text0 : str) : result str :=
  let text_lower := Str.lower text0 in
  let current_date := now in
  target <- target_date current_date text_lower;;
  hm <- matched_time time_patterns text_lower;;
  d <- replace target hm.1 hm.2;;
  Ok (strftime_minute d).

Definition not_comma_period : cls := NoneOf [Lit 44; Lit 46].
Definition articles : regex :=
  alts [text (py "no"); text (py "na"); text (py "do"); text (py "da")].

(** The three location patterns:
    [(?:no|na|em|do|da)\s+(?:escritório|filial|sede|unidade)\s+(?:de|do|da)?\s*([^,\.\s]+)],
    [(?:em|na|no)\s+([A-Z][a-záêçõ\s]+?)(?:\s*,|\s*\.|\s*que|\s*houve)],
    [local[:\s]+([^,\.]+)] *)
Definition location_patterns : list regex :=
  [ seqs [ alts [text (py "no"); text (py "na"); text (py "em"); text (py "do");
                 text (py "da")];
           plus Space;
           alts [text (py "escritório"); text (py "filial"); text (py "sede");
                 text (py "unidade")];
           plus Space;
           Opt (alts [text (py "de"); text (py "do"); text (py "da")]);
           star Space;
           Grp 1 (plus (NoneOf [Lit 44; Lit 46; Space])) ];
    seqs [ alts [text (py "em"); text (py "na"); text (py "no")];
           plus Space;
           Grp 1 (Seq (One (OneOf [Range 65 90]))
                      (plus_lazy (OneOf [Range 97 122; Lit 225; Lit 234; Lit 231;
                                         Lit 245; Space])));
           alts [ Seq (star Space) (text (py ","));
                  Seq (star Space) (text (py "."));
                  Seq (star Space) (text (py "que"));
                  Seq (star Space) (text (py "houve")) ] ];
    seqs [ text (py "local"); plus (OneOf [Lit 58; Space]);
           Grp 1 (plus not_comma_period) ] ].

Fixpoint _extract_location_loop (patterns : list regex) (text0 : str) : result str :=
  match patterns with
  | [] => Ok (py "N/A")
  | pattern :: others =>
      match search true pattern text0 with
      | Some m =>
          if (1 <? groups_len m)%nat
          then w <- group_text m 2;; Ok (Str.strip w)
          else w <- group_text m 1;; Ok (Str.strip w)
      | None => _extract_location_loop others text0
      end
  end.

Definition _extract_location (text0 : str) : result str :=
  _extract_location_loop location_patterns text0.

(** [(falha\s+(?:no|na|do|da)\s+[^,\.]+)] and the same for [erro],
    [problema], [interrupção] and [pane]. *)
Definition type_pattern (stem : str) : regex :=
  Grp 1 (seqs [text stem; plus Space; articles; plus Space; plus not_comma_period]).

Definition type_patterns : list regex :=
  [ type_pattern (py "falha"); type_pattern (py "erro");
    type_pattern (py "problema"); type_pattern (py "interrupção");
    type_pattern (py "pane") ].

Fixpoint _extract_incident_type_loop (patterns : list regex) (text0 : str)
  : result str :=
  match patterns with
  | [] => Ok (py "Incidente não especificado")
  | pattern :: others =>
      match search true pattern text0 with
      | Some m => w <- group_text m 1;; Ok (Str.capitalize (Str.strip w))
      | None => _extract_incident_type_loop others text0
      end
  end.

Definition _extract_incident_type (text0 : str) : result str :=
  _extract_incident_type_loop type_patterns text0.

(** [(afetou\s+[^,\.]+(?:\s+por\s+[^,\.]+)?)], [(indisponível\s+por\s+[^,\.]+)],
    [(duração\s+de\s+[^,\.]+)], [(por\s+\d+\s+(?:horas?|minutos?|dias?))],
    [(ficou\s+[^,\.]+\s+por\s+[^,\.]+)] *)
Definition impact_patterns : list regex :=
  [ Grp 1 (seqs [ text (py "afetou"); plus Space; plus not_comma_period;
                  Opt (seqs [plus Space; text (py "por"); plus Space;
                             plus not_comma_period]) ]);
    Grp 1 (seqs [ text (py "indisponível"); plus Space; text (py "por"); plus Space;
                  plus not_comma_period ]);
    Grp 1 (seqs [ text (py "duração"); plus Space; text (py "de"); plus Space;
                  plus not_comma_period ]);
    Grp 1 (seqs [ text (py "por"); plus Space; plus Digit; plus Space;
                  alts [ Seq (text (py "hora")) (Opt (One (Lit 115)));
                         Seq (text (py "minuto")) (Opt (One (Lit 115)));
                         Seq (text (py "dia")) (Opt (One (Lit 115))) ] ]);
    Grp 1 (seqs [ text (py "ficou"); plus Space; plus not_comma_period; plus Space;
                  text (py "por"); plus Space; plus not_comma_period ]) ].

Fixpoint _extract_impact_loop (patterns : list regex) (text0 : str) : result str :=
  match patterns with
  | [] => Ok (Str.truncated 100 text0)
  | pattern :: others =>
      match search true pattern text0 with
      | Some m => w <- group_text m 1;; Ok (Str.strip w)
      | None => _extract_impact_loop others text0
      end
  end.

Definition _extract_impact (text0 : str) : result str :=
  _extract_impact_loop impact_patterns text0.

(** The dictionary that the parser returns: [status] and [incident] always,
    [method] on the fallback's success, [message] on its failure. *)
Record parse_result := ParseResult
  { status : str; incident : json; method : option str; message : option str }.

Definition incident_record (data_ocorrencia local tipo_incidente impacto : str)
  : json :=
  JObj (<[py "data_ocorrencia" := JStr data_ocorrencia]>
        (<[py "local" := JStr local]>
         (<[py "tipo_incidente" := JStr tipo_incidente]>
          (<[py "impacto" := JStr impacto]> ∅)))).

(** The [try] block of [_fallback_incident_parsing]. *)
Definition fallback_try (now : datetime) (incident_description : str)
  : result parse_result :=
  date_occurrence <- _extract_date_info now incident_description;;
  location <- _extract_location incident_description;;
  incident_type <- _extract_incident_type incident_description;;
  impact <- _extract_impact incident_description;;
  Ok (ParseResult (py "success")
        (incident_record date_occurrence location incident_type impact)
        (Some (py "regex_fallback")) None).

(** [error or str(e)]: the text given by the caller unless it is [None] or
    empty. *)
Definition error_or (error : option str) (e : exn) : str :=
  match error with
  | Some (c :: tl) => c :: tl
  | _ => exn_str e
  end.

Definition _fallback_incident_parsing (now : datetime) (incident_description : str)
  (error : option str) : parse_result :=
  match fallback_try now incident_description with
  | Ok r => r
  | Raise e =>
      let error_message := error_or error e in
      ParseResult (py "error")
        (incident_record (strftime_minute now) (py "N/A")
           (py "Erro no processamento") (Str.truncated 100 incident_description))
        None (Some (py "Parsing failed: " ++ error_message))
  end.

(** *** The generative path *)

(** What is posted to the service: the address, and the [model] and [prompt]
    entries of the body ([stream] is always [False], the timeout 30 seconds). *)
Record request := Request { url : str; req_model : str; prompt : str }.

(** What the call did: [client.post] raised, or a response came back with
    its status code and what [response.json()] makes of its body. *)
Inductive reply :=
| PostRaises (e : exn)
| Response (status_code : Z) (body : result json).

Definition parsing_prompt (current_date processed_text : str) : str :=
  py "Extract incident information from the following description and return ONLY a valid JSON object with these exact fields:"
  ++ newline ++ newline
  ++ py "- data_ocorrencia: Date and time in YYYY-MM-DD HH:MM format (if only date mentioned, use 00:00 for time. If relative time like "
  ++ quote ++ py "ontem" ++ quote ++ py " (yesterday), "
  ++ quote ++ py "hoje" ++ quote ++ py " (today), calculate based on current date "
  ++ current_date ++ py ")" ++ newline
  ++ py "- local: Location where incident occurred" ++ newline
  ++ py "- tipo_incidente: Type/category of incident " ++ newline
  ++ py "- impacto: Impact description including duration and affected systems"
  ++ newline ++ newline
  ++ py "Description: " ++ quote ++ processed_text ++ quote
  ++ newline ++ newline
  ++ py "Return ONLY the JSON object, no other text:".

(** [response.json().get('response', '').strip()] *)
Definition llm_response_of (body : json) : result str :=
  match body with
  | JObj m =>
      match default (JStr []) (m !! py "response") with
      | JStr s => Ok (Str.strip s)
      | _ => Raise (AttributeError (py "object has no attribute 'strip'"))
      end
  | _ => Raise (AttributeError (py "object has no attribute 'get'"))
  end.

Definition required_fields : list str :=
  [py "data_ocorrencia"; py "local"; py "tipo_incidente"; py "impacto"].

(** The loop that validates the required fields. *)
Fixpoint fill_required (fields : list str) (parsed_json : json) : result json :=
  match fields with
  | [] => Ok parsed_json
  | field :: others =>
      missing <- not_in field parsed_json;;
      if missing : bool then
        filled <- setitem parsed_json field (JStr (py "N/A"));;
        fill_required others filled
      else fill_required others parsed_json
  end.

Section Generative.

(** [json.loads], the decoder of the standard library. *)
Variable json_loads : str -> result json.
(** The service behind [client.post]. *)
Variable post : request -> reply.
(** [os.getenv("OLLAMA_URL")] *)
Variable env_ollama_url : option str.

(** The request that [parse_incident_structure] posts. *)
Definition request_of (now : datetime) (incident_description : str)
  (ollama_url : option str) (model : str) : request :=
  let ollama_url :=
    match ollama_url with
    | Some (c :: tl) => c :: tl
    | _ => default (py "http://172.29.80.1:11434") env_ollama_url
    end in
  let processed_text := preprocess_incident_text now incident_description in
  let current_date := strftime_date now in
  let parsing_prompt := parsing_prompt current_date processed_text in
  Request (ollama_url ++ py "/api/generate") model parsing_prompt.

(** The outer [try] block of [parse_incident_structure]; the inner one, around
    [json.loads] and the validation, catches [JSONDecodeError] only. *)
Definition generative_try (now : datetime) (incident_description : str)
  (ollama_url : option str) (model : str) : result parse_result :=
  match post (request_of now incident_description ollama_url model) with
  | PostRaises e => Raise e
  | Response status_code body =>
      if (status_code =? 200)%Z then
        payload <- body;;
        llm_response <- llm_response_of payload;;
        match (parsed_json <- json_loads llm_response;;
               parsed_json <- fill_required required_fields parsed_json;;
               Ok (ParseResult (py "success") parsed_json None None)) with
        | Raise (JSONDecodeError _) =>
            Ok (_fallback_incident_parsing now incident_description None)
        | other => other
        end
      else Ok (_fallback_incident_parsing now incident_description None)
  end.

Definition parse_incident_structure (now : datetime) (incident_description : str)
  (ollama_url : option str) (model : str) : parse_result :=
  match generative_try now incident_description ollama_url model with
  | Ok r => r
  | Raise e =>
      _fallback_incident_parsing now incident_description (Some (exn_str e))
  end.

End Generative.

End IncidentTools.

(** ** [main.py]: the batch endpoint *)

Module Main.

Record IncidentRequest := { description : str; model : option str }.

Record IncidentResponse := IncidentResponse_
  { status : str; incident : option (gmap str json); error : option str }.

(** What a handler raises: an [HTTPException], or any other exception. *)
Inductive raised :=
| HTTPException (status_code : Z) (detail : str)
| Other (e : exn).

Section Endpoint.

(** The state of the world that a call of the agent reads and changes (the
    generative service, the clock). *)
Variable world : Type.
(** [parser_agent.process_message]; the global [parser_agent] is [None]
    until the startup hook has run. *)
Variable parser_agent : option (str -> world -> result str * world).
Variable json_loads : str -> result json.
(** [str(e)] for an [HTTPException], which depends on the version of the web
    framework. *)
Variable http_exception_str : Z -> str -> str.

Definition raised_str (e : raised) : str :=
  match e with
  | HTTPException status_code detail => http_exception_str status_code detail
  | Other e => exn_str e
  end.

(** The inner [try] of [parse_incident], after the agent has answered. *)
Definition response_of_answer (answer : str) : result IncidentResponse :=
  match json_loads answer with
  | Ok parsed_incident =>
      missing <- not_in (py "data_ocorrencia") parsed_incident;;
      if missing : bool then
        Ok (IncidentResponse_ (py "error") None
              (Some (py "Invalid incident description. Please provide a clear incident description.")))
      else
        match parsed_incident with
        | JObj m => Ok (IncidentResponse_ (py "success") (Some m) None)
        | _ => Raise (ValueError (py "validation error for IncidentResponse"))
        end
  | Raise (JSONDecodeError _) =>
      Ok (IncidentResponse_ (py "error") None
            (Some (py "Failed to parse response: " ++ answer)))
  | Raise e => Raise e
  end.

Definition parse_incident (request : IncidentRequest) (w : world)
  : (raised + IncidentResponse) * world :=
  match parser_agent with
  | None => (inl (HTTPException 500 (py "Parser agent not initialized")), w)
  | Some process_message =>
      match Str.strip (description request) with
      | [] => (inl (HTTPException 400 (py "Description cannot be empty")), w)
      | _ :: _ =>
          let (answer, w') := process_message (description request) w in
          match (result <- answer;; response_of_answer result) with
          | Ok response => (inr response, w')
          | Raise e =>
              (inr (IncidentResponse_ (py "error") None
                      (Some (py "Processing failed: " ++ exn_str e))), w')
          end
      end
  end.

(** One turn of the loop of [parse_batch_incidents]: the response that is
    appended for the request of index [i]. *)
Definition item_response (i : nat) (request : IncidentRequest) (w : world)
  : IncidentResponse * world :=
  match parse_incident request w with
  | (inr response, w') => (response, w')
  | (inl e, w') =>
      (IncidentResponse_ (py "error") None
         (Some (py "Failed to process incident " ++ Str.pad 0 (N.of_nat (i + 1))
                ++ py ": " ++ raised_str e)), w')
  end.

Fixpoint batch_loop (i : nat) (requests : list IncidentRequest)
  (results : list IncidentResponse) (w : world) : list IncidentResponse * world :=
  match requests with
  | [] => (results, w)
  | request :: others =>
      let (response, w') := item_response i request w in
      batch_loop (S i) others (results ++ [response]) w'
  end.

Definition parse_batch_incidents (requests : list IncidentRequest) (w : world)
  : (raised + list IncidentResponse) * world :=
  match parser_agent with
  | None => (inl (HTTPException 500 (py "Parser agent not initialized")), w)
  | Some _ =>
      if (100 <? length requests)%nat
      then (inl (HTTPException 400 (py "Maximum 100 incidents per batch")), w)
      else
        let (results, w') := batch_loop 0 requests [] w in
        (inr results, w')
  end.

End Endpoint.

End Main.


(** ** [stark/instructions.py]: when a message is parsed, and which part of it *)

Module Instructions.
Import IncidentTools.

Definition PARSING_KEYWORDS : list str :=
  [ py "parse"; py "estruturar"; py "extrair"; py "parsear"; py "analisar";
    py "parse"; py "structure"; py "extract"; py "analyze" ].

Definition should_parse_incident (message : str) : bool :=
  let message_lower := Str.lower message in
  if Str.startswith (py "Parse:") message then true
  else existsb (fun keyword => Str.contains keyword message_lower) PARSING_KEYWORDS.

Definition incident_indicators : list str :=
  [ py "falha"; py "erro"; py "problema"; py "incidente"; py "pane";
    py "indisponível"; py "offline"; py "parou"; py "caiu";
    py "failure"; py "error"; py "issue"; py "down"; py "crash" ].

Definition is_valid_incident_description (message : str) : bool :=
  let message_lower := Str.lower message in
  existsb (fun indicator => Str.contains indicator message_lower) incident_indicators.

(** [s.split(sep, 1)] for a separator that is not empty: the text before
    the first occurrence of [sep] and the text after it, or [s] alone when
    [sep] does not occur. *)
Fixpoint split_once (sep s : str) : list str :=
  if Str.startswith sep s then [[]; drop (length sep) s]
  else
    match s with
    | [] => [[]]
    | c :: tl =>
        match split_once sep tl with
        | before :: others => (c :: before) :: others
        | [] => []
        end
    end.

(** [s.lstrip(chars)] *)
Fixpoint lstrip_chars (chars s : str) : str :=
  match s with
  | c :: tl => if existsb (N.eqb c) chars then lstrip_chars chars tl else s
  | [] => []
  end.

(** The loop of [extract_parsing_text] over the keywords; it ends with the
    message itself. *)
Fixpoint extract_after_keyword (keywords : list str) (message : str) : str :=
  match keywords with
  | [] => message
  | keyword :: others =>
      let message_lower := Str.lower message in
      if Str.contains keyword message_lower then
        match split_once keyword (Str.lower message) with
        | _ :: part :: _ =>
            let extracted := Str.strip (lstrip_chars (py ":") (Str.strip part)) in
            match extracted with
            | _ :: _ => extracted
            | [] => extract_after_keyword others message
            end
        | _ => extract_after_keyword others message
        end
      else extract_after_keyword others message
  end.

Definition extract_parsing_text (message : str) : str :=
  if Str.startswith (py "Parse:") message then Str.strip (drop 6 message)
  else extract_after_keyword PARSING_KEYWORDS message.

Section Dumps.

(** [json.dumps(value, indent=2, ensure_ascii=False)] *)
Variable json_dumps : json -> str.

Definition format_json_response (incident_data : json) : str :=
  json_dumps incident_data.

Definition get_error_response (now : datetime) (error_message : str) : str :=
  let error_data :=
    incident_record (strftime_minute now) (py "N/A") (py "Erro no processamento")
      (py "Erro: " ++ error_message) in
  json_dumps error_data.

End Dumps.

End Instructions.

(** ** [stark/agent.py]: the agent behind the endpoints *)

Module Agent.
Import IncidentTools Instructions.

Definition fallback_keywords : list str :=
  [ py "falha"; py "erro"; py "problema"; py "incidente"; py "servidor";
    py "rede"; py "sistema" ].

Definition help_msg : json :=
  JObj (<[py "message" := JStr (py "Please provide an incident description to parse")]>
        (<[py "examples" :=
             JArr [ JStr (py "Parse: Ontem às 14h houve falha no servidor de São Paulo");
                    JStr (py "Falha na rede durou 2 horas no escritório RJ");
                    JStr (py "Sistema de banco indisponível por 30 minutos") ]]>
         (<[py "expected_output" :=
              incident_record (py "YYYY-MM-DD HH:MM") (py "Location")
                (py "Incident type") (py "Impact description")]> ∅))).

Section ParserAgent.

Variable json_loads : str -> result json.
Variable json_dumps : json -> str.
Variable post : request -> reply.
Variable env_ollama_url : option str.
(** Whether [instructions.py] could be imported when the module was
    loaded. *)
Variable INSTRUCTIONS_AVAILABLE : bool.
(** [self.model] *)
Variable model : str.

(** [self.ollama_url], read from the environment when the agent is made. *)
Definition ollama_url : str :=
  default (py "http://172.29.80.1:11434") env_ollama_url.

Definition _get_help_message : str := json_dumps help_msg.

(** The first step of [process_message]: the text to parse, or [None] where
    the help message is returned. *)
Definition incident_text_of (message : str) : option str :=
  if INSTRUCTIONS_AVAILABLE then
    if should_parse_incident message || is_valid_incident_description message
    then Some (extract_parsing_text message)
    else None
  else
    if existsb (fun keyword => Str.contains keyword (Str.lower message))
         fallback_keywords
    then Some (if Str.startswith (py "Parse:") message
               then Str.strip (drop 6 message) else message)
    else None.

(** The record that is written out for an error, with the instructions
    ([get_error_response]) or without them. *)
Definition error_response (now : datetime) (impacto : str) : str :=
  if INSTRUCTIONS_AVAILABLE
  then get_error_response json_dumps now impacto
  else json_dumps
         (incident_record (strftime_minute now) (py "N/A")
            (py "Erro no processamento") (py "Erro: " ++ impacto)).

(** The [try] block of [process_message]. *)
Definition process_try (now : datetime) (message : str) : result str :=
  match incident_text_of message with
  | None => Ok _get_help_message
  | Some incident_text =>
      let result :=
        parse_incident_structure json_loads post env_ollama_url now incident_text
          (Some ollama_url) model in
      if bool_decide (status result = py "success") then
        let incident_data := incident result in
        if INSTRUCTIONS_AVAILABLE
        then Ok (format_json_response json_dumps incident_data)
        else Ok (json_dumps incident_data)
      else
        let error_msg :=
          default (py "Unknown parsing error") (IncidentTools.message result) in
        Ok (error_response now error_msg)
  end.

Definition process_message (now : datetime) (message : str) : str :=
  match process_try now message with
  | Ok answer => answer
  | Raise e =>
      let error_msg := py "Processing error: " ++ exn_str e in
      if INSTRUCTIONS_AVAILABLE
      then get_error_response json_dumps now error_msg
      else json_dumps
             (incident_record (strftime_minute now) (py "N/A")
                (py "Erro no processamento") error_msg)
  end.

End ParserAgent.

End Agent.

(** ** Notions used to state the properties *)

Module Spec.
Import Re IncidentTools.

(** The words that a pattern matches, whatever surrounds them. *)
Fixpoint word_of (ic : bool) (r : regex) (w : str) : Prop :=
  match r with
  | Eps | WordB => w = []
  | One k => exists c, w = [c] /\ cls_match ic k c = true
  | Seq a b => exists u v, w = u ++ v /\ word_of ic a u /\ word_of ic b v
  | Alt a b => word_of ic a w \/ word_of ic b w
  | Opt a => word_of ic a w \/ w = []
  | Rep k lo hi _ =>
      Forall (fun c => cls_match ic k c = true) w /\ (lo <= length w)%nat
      /\ match hi with Some h => (length w <= h)%nat | None => True end
  | Grp _ a => word_of ic a w
  end.

(** What group [n] of a pattern can hold. *)
Fixpoint group_word (ic : bool) (n : nat) (r : regex) (w : str) : Prop :=
  match r with
  | Seq a b | Alt a b => group_word ic n a w \/ group_word ic n b w
  | Opt a => group_word ic n a w
  | Grp k a => (k = n /\ word_of ic a w) \/ group_word ic n a w
  | _ => False
  end.

(** Whether every match of a pattern gives group [n] a value. *)
Fixpoint sets_group (n : nat) (r : regex) : bool :=
  match r with
  | Seq a b => sets_group n a || sets_group n b
  | Alt a b => sets_group n a && sets_group n b
  | Grp k a => (k =? n)%nat || sets_group n a
  | _ => false
  end.

Definition digits (w : str) : Prop :=
  Forall (fun c => isdigit c = true) w /\ (1 <= length w)%nat.

(** Whether a pattern is a run of one digit or more. *)
Definition digit_run (r : regex) : bool :=
  match r with
  | Rep Digit lo _ _ => (1 <=? lo)%nat
  | _ => false
  end.

(** Whether group [n], wherever it stands in the pattern, encloses a run of
    digits. *)
Fixpoint group_digits (n : nat) (r : regex) : bool :=
  match r with
  | Seq a b | Alt a b => group_digits n a && group_digits n b
  | Opt a => group_digits n a
  | Grp k a => (if (k =? n)%nat then digit_run a else true) && group_digits n a
  | _ => true
  end.

(** A time pattern: one or two groups, the first in every match, and each
    around a run of digits. *)
Definition time_pattern_ok (p : regex) : bool :=
  (1 <=? ngroups p)%nat && (ngroups p <=? 2)%nat && sets_group 1 p
  && group_digits 1 p && group_digits 2 p.

(** A field pattern: group 1 is in every match. *)
Definition field_pattern_ok (p : regex) : bool :=
  (1 <=? ngroups p)%nat && sets_group 1 p.

(** What a loop over patterns meets: the first pattern of the list found in
    the text, with its match, or nothing. *)
Fixpoint first_found (ps : list regex) (t : str) : option (regex * match_obj) :=
  match ps with
  | [] => None
  | p :: others =>
      match search true p t with
      | Some m => Some (p, m)
      | None => first_found others t
      end
  end.

(** The first capture group of a match, empty when it has none. *)
Definition first_group (m : match_obj) : str :=
  default [] (lookup_group 1 (m_caps m)).

Definition now0 : datetime := Datetime 2025 9 7 10 30.


(** The claim of C7 on the error record: the date at 00:00 and the sentinel
    of the incident type. *)
Definition error_record_as_claimed (now : datetime) (t : str) : json :=
  incident_record (strftime_date now ++ py " 00:00") (py "N/A")
    (py "Incidente não especificado") (Str.truncated 100 t).

(** The text asks for the day before while the clock is at the first day of
    the calendar. *)
Definition overflows (now : datetime) (t : str) : bool :=
  (Str.contains (py "ontem") (Str.lower t) || Str.contains (py "yesterday") (Str.lower t))
  && first_day now.

(** The ways the generative path fails, each with the [error] argument that
    [parse_incident_structure] then gives to the deterministic extractor:
    [client.post] raises, the status is not 200, [response.json()] raises on
    the body, or the text of the model does not decode as JSON. *)
Inductive generative_failure (json_loads : str -> result json)
  : reply -> option str -> Prop :=
| failure_raises e :
    generative_failure json_loads (PostRaises e) (Some (exn_str e))
| failure_status code body :
    code <> 200%Z -> generative_failure json_loads (Response code body) None
| failure_body e :
    generative_failure json_loads (Response 200 (Raise e)) (Some (exn_str e))
| failure_text payload s msg :
    llm_response_of payload = Ok s ->
    json_loads s = Raise (JSONDecodeError msg) ->
    generative_failure json_loads (Response 200 (Ok payload)) None.

(** A record of exactly the four fields, each a text. *)
Definition four_texts (v : json) : Prop :=
  exists m, v = JObj m
    /\ dom m = list_to_set required_fields
    /\ forall k x, m !! k = Some x -> exists s, x = JStr s.

(** The text of an object with a null location and a key of its own. *)
Definition extra_text : str :=
  py "{" ++ quote ++ py "local" ++ quote ++ py ": null, "
  ++ quote ++ py "severity" ++ quote ++ py ": 3}".

(** The object of the model with every field but the location, and its
    text. *)
Definition without_local : gmap str json :=
  <[py "data_ocorrencia" := JStr (py "2025-09-06 14:00")]>
    (<[py "tipo_incidente" := JStr (py "Falha no servidor")]>
       (<[py "impacto" := JStr (py "sistema parado por 2 horas")]> ∅)).

Definition entry_text (k v : str) : str :=
  quote ++ k ++ quote ++ py ": " ++ quote ++ v ++ quote.

Definition without_local_text : str :=
  py "{" ++ entry_text (py "data_ocorrencia") (py "2025-09-06 14:00") ++ py ", "
  ++ entry_text (py "tipo_incidente") (py "Falha no servidor") ++ py ", "
  ++ entry_text (py "impacto") (py "sistema parado por 2 horas") ++ py "}".

(** A decoder that agrees with [json.loads] on the three texts of the
    examples and answers as for a text that is not JSON on the others. *)
Definition example_loads (s : str) : result json :=
  if bool_decide (s = py "{}") then Ok (JObj ∅)
  else if bool_decide (s = extra_text)
  then Ok (JObj (<[py "local" := JNull]> (<[py "severity" := JNum 3]> ∅)))
  else if bool_decide (s = without_local_text) then Ok (JObj without_local)
  else Raise (JSONDecodeError (py "Expecting value")).

(** A service that answers every request with status 200 and the given
    text of the model. *)
Definition reply_with (llm_text : str) (_ : request) : reply :=
  Response 200 (Ok (JObj (<[py "response" := JStr llm_text]> ∅))).

(** A service that cannot be reached. *)
Definition unreachable (_ : request) : reply :=
  PostRaises (TransportError (py "All connection attempts failed")).

Definition is_object (v : json) : bool :=
  match v with JObj _ => true | _ => false end.

(** Whether [field in v] holds for each of the fields. *)
Definition holds_all (fields : list str) (v : json) : bool :=
  forallb (fun field => match not_in field v with Ok false => true | _ => false end)
    fields.

(** The value that the text of the model decodes to, when the service
    answers with status 200 and a body that holds a text. *)
Inductive model_answer (json_loads : str -> result json) : reply -> json -> Prop :=
| model_answer_decoded payload s parsed :
    llm_response_of payload = Ok s ->
    json_loads s = Ok parsed ->
    model_answer json_loads (Response 200 (Ok payload)) parsed.

Section BatchSpec.

Variable world : Type.
Variable parser_agent : option (str -> world -> result str * world).
Variable json_loads : str -> result json.
Variable http_exception_str : Z -> str -> str.

(** The state of the world once the first [k] requests of a batch have been
    processed, starting from [w]. *)
Fixpoint world_at (k : nat) (i : nat) (requests : list Main.IncidentRequest)
  (w : world) : world :=
  match k, requests with
  | S k', request :: others =>
      world_at k' (S i) others
        (Main.item_response world parser_agent json_loads http_exception_str
           i request w).2
  | _, _ => w
  end.

End BatchSpec.

(** An agent that answers nothing useful and writes down each message it is
    given; the world is the list of these messages. *)
Definition logging_agent (message : str) (log : list str) : result str * list str :=
  (Ok (py "{}"), log ++ [message]).

Definition request_for (t : str) : Main.IncidentRequest :=
  {| Main.description := t; Main.model := None |}.

Definition http_str (status_code : Z) (detail : str) : str := detail.

(** White space, comma and period: all that the cleaning of the text moves. *)
Definition is_sep (c : char) : bool := isspace c || (c =? 44) || (c =? 46).

Definition sep_cls (k : cls) : bool :=
  match k with
  | Space => true
  | Lit c => (c =? 44) || (c =? 46)
  | _ => false
  end.

(** Whether a pattern matches separators only. *)
Fixpoint only_seps (r : regex) : bool :=
  match r with
  | Eps | WordB => true
  | One k | Rep k _ _ _ => sep_cls k
  | Seq a b | Alt a b => only_seps a && only_seps b
  | Opt a | Grp _ a => only_seps a
  end.

(** Whether every match of a pattern takes a character at least. *)
Fixpoint consumes (r : regex) : bool :=
  match r with
  | One _ => true
  | Rep _ lo _ _ => (1 <=? lo)%nat
  | Seq a b => consumes a || consumes b
  | Alt a b => consumes a && consumes b
  | Grp _ a => consumes a
  | _ => false
  end.

Definition separator_pattern (r : regex) : bool := only_seps r && consumes r.

(** How many times a character occurs in a text. *)
Fixpoint count_of (c : char) (s : str) : nat :=
  match s with
  | [] => O
  | x :: tl => (if x =? c then 1 else 0) + count_of c tl
  end.

(** [w] occurs in [s] as a contiguous block. *)
Definition infix_of (w s : str) : Prop := exists pre post, s = pre ++ w ++ post.

(** The condition of [_add_date_reference]: a relative date word occurs in
    the text once in lower case. *)
Definition has_relative_word (s : str) : bool :=
  existsb (fun word => Str.contains word (Str.lower s)) relative_date_words.

(** The two conditions of [_add_missing_time_context]: a relative date
    stands in the text as a whole word, in any case, and one of the time
    indicators is found in it. *)
Definition has_relative_date (s : str) : bool :=
  existsb (fun date => found true s (relative_date_pattern date)) relative_dates.

Definition has_time_info (s : str) : bool :=
  existsb (found true s) time_indicator_patterns.

(** What [_add_missing_time_context] appends to a text. *)
Definition time_placeholder (s : str) : str :=
  if has_relative_date s && negb (has_time_info s)
  then py " (horário não especificado)" else [].

(** What [_add_date_reference] appends to a text with a relative date
    word. *)
Definition reference (now : datetime) : str :=
  py " [Referência: " ++ strftime_date now ++ py "]".


(** *** What the extractors return *)

(** Whether no character class of a pattern matches the character [c0]. *)
Fixpoint avoids (ic : bool) (c0 : char) (r : regex) : bool :=
  match r with
  | Eps | WordB => true
  | One k | Rep k _ _ _ => negb (cls_match ic k c0)
  | Seq a b | Alt a b => avoids ic c0 a && avoids ic c0 b
  | Opt a | Grp _ a => avoids ic c0 a
  end.

(** Whether group [n], wherever it stands in the pattern, encloses a pattern
    that avoids [c0]. *)
Fixpoint group_avoids (ic : bool) (c0 : char) (n : nat) (r : regex) : bool :=
  match r with
  | Seq a b | Alt a b => group_avoids ic c0 n a && group_avoids ic c0 n b
  | Opt a => group_avoids ic c0 n a
  | Grp k a => (if (k =? n)%nat then avoids ic c0 a else true) && group_avoids ic c0 n a
  | _ => true
  end.

(** A text without comma and without period. *)
Definition no_comma_period (s : str) : Prop := (44 ∉ s) /\ (46 ∉ s).







(** Answers of the service with status 200 that the parser cannot use
    though they decode: the body is no object, its [response] is no text, or
    the text of the model decodes to a value that is no object and in which
    a required field is not found (null, a boolean, a number, or a text or a
    list without one of the four names). *)
Inductive malformed_answer (json_loads : str -> result json) : json -> Prop :=
| body_not_object payload :
    match payload with JObj _ => False | _ => True end ->
    malformed_answer json_loads payload
| response_not_text m v :
    m !! py "response" = Some v ->
    match v with JStr _ => False | _ => True end ->
    malformed_answer json_loads (JObj m)
| text_not_object payload s v :
    llm_response_of payload = Ok s ->
    json_loads s = Ok v ->
    is_object v = false -> holds_all required_fields v = false ->
    malformed_answer json_loads payload.

(** A service that answers with status 200 and a body that is a list. *)
Definition reply_list (_ : request) : reply := Response 200 (Ok (JArr [])).

(** What is left of a text without its white space, commas and periods. *)
Definition letters (s : str) : str := List.filter (fun c => negb (is_sep c)) s.

(** Whether every period of a text is followed by a space. *)
Fixpoint periods_spaced (s : str) : bool :=
  match s with
  | [] => true
  | c :: tl =>
      (if c =? 46 then match tl with 32 :: _ => true | _ => false end else true)
      && periods_spaced tl
  end.

(** [post] is what follows the first occurrence of [keyword] in [s]. *)
Definition tail_after (keyword s post : str) : Prop :=
  exists pre,
    s = pre ++ keyword ++ post
    /\ forall pre' post', s = pre' ++ keyword ++ post' -> (length pre <= length pre')%nat.

(** What [extract_parsing_text] keeps of the text after a keyword: no white
    space around it, no colon before it. *)
Definition trimmed (post : str) : str :=
  Str.strip (Instructions.lstrip_chars (py ":") (Str.strip post)).

(** The keyword gives the text [r]: it occurs in the message in lower case,
    and what follows its first occurrence, once trimmed, is [r] and is not
    empty. *)
Definition yields (message keyword r : str) : Prop :=
  exists post,
    tail_after keyword (Str.lower message) post /\ r = trimmed post /\ r <> [].

(** The keyword gives nothing: it does not occur in the message in lower
    case, or nothing is left of what follows its first occurrence. *)
Definition yields_nothing (message keyword : str) : Prop :=
  forall post, tail_after keyword (Str.lower message) post -> trimmed post = [].

(** The value that [process_message] writes out: the help message, the
    record of the parser, or the error record with the message of the
    parser. *)
Definition answer_value (json_loads : str -> result json) (post : request -> reply)
  (env_ollama_url : option str) (INSTRUCTIONS_AVAILABLE : bool) (model : str)
  (now : datetime) (message : str) : json :=
  match Agent.incident_text_of INSTRUCTIONS_AVAILABLE message with
  | None => Agent.help_msg
  | Some incident_text =>
      let result :=
        parse_incident_structure json_loads post env_ollama_url now incident_text
          (Some (Agent.ollama_url env_ollama_url)) model in
      if bool_decide (status result = py "success") then incident result
      else incident_record (strftime_minute now) (py "N/A")
             (py "Erro no processamento")
             (py "Erro: " ++ default (py "Unknown parsing error")
                               (IncidentTools.message result))
  end.

(** The agent as the endpoints call it; the world is the clock. *)
Definition clock_agent (json_loads : str -> result json) (json_dumps : json -> str)
  (post : request -> reply) (env_ollama_url : option str)
  (INSTRUCTIONS_AVAILABLE : bool) (model : str)
  (message : str) (now : datetime) : result str * datetime :=
  (Ok (Agent.process_message json_loads json_dumps post env_ollama_url
         INSTRUCTIONS_AVAILABLE model now message), now).

(** An encoder that writes one text, and the decoder that reads this text
    as the given value and no other text. *)
Definition dumps_as (text0 : str) (_ : json) : str := text0.
Definition loads_as (text0 : str) (v : json) (s : str) : result json :=
  if bool_decide (s = text0) then Ok v
  else Raise (JSONDecodeError (py "Expecting value")).

(** The four entries of a record. *)
Definition record_fields (data_ocorrencia local tipo_incidente impacto : str)
  : gmap str json :=
  <[py "data_ocorrencia" := JStr data_ocorrencia]>
    (<[py "local" := JStr local]>
       (<[py "tipo_incidente" := JStr tipo_incidente]>
          (<[py "impacto" := JStr impacto]> ∅))).

(** Texts as [json.dumps] writes them with [indent=2]. *)
Fixpoint joined (sep : str) (l : list str) : str :=
  match l with
  | [] => []
  | [x] => x
  | x :: tl => x ++ sep ++ joined sep tl
  end.

Definition text_literal (s : str) : str := quote ++ s ++ quote.

Definition record_text (indent : str) (d l ty im : str) : str :=
  py "{" ++ newline
  ++ joined (py "," ++ newline)
       (map (fun kv : str * str => indent ++ py "  " ++ entry_text kv.1 kv.2)
          [ (py "data_ocorrencia", d); (py "local", l);
            (py "tipo_incidente", ty); (py "impacto", im) ])
  ++ newline ++ indent ++ py "}".

Definition help_text : str :=
  py "{" ++ newline
  ++ py "  " ++ entry_text (py "message")
                  (py "Please provide an incident description to parse")
  ++ py "," ++ newline
  ++ py "  " ++ text_literal (py "examples") ++ py ": [" ++ newline
  ++ joined (py "," ++ newline)
       (map (fun s => py "    " ++ text_literal s)
          [ py "Parse: Ontem às 14h houve falha no servidor de São Paulo";
            py "Falha na rede durou 2 horas no escritório RJ";
            py "Sistema de banco indisponível por 30 minutos" ])
  ++ newline ++ py "  ]," ++ newline
  ++ py "  " ++ text_literal (py "expected_output") ++ py ": "
  ++ record_text (py "  ") (py "YYYY-MM-DD HH:MM") (py "Location")
       (py "Incident type") (py "Impact description")
  ++ newline ++ py "}".

(** An agent that answers every message with the given text and writes the
    message down. *)
Definition answering_agent (answer message : str) (log : list str)
  : result str * list str :=
  (Ok answer, log ++ [message]).

End Spec.

(** * Properties *)

Import Re IncidentTools Spec.


(** ** The matcher *)

Lemma span_spec ic k hi s :
  Forall (fun c => cls_match ic k c = true) (take (span ic k hi s) s)
  /\ (span ic k hi s <= length s)%nat
  /\ match hi with Some h => (span ic k hi s <= h)%nat | None => True end.
Proof.
  revert hi. induction s as [|c tl IH]; intros hi.
  - destruct hi as [[|h]|]; simpl; repeat split; auto; lia.
  - destruct hi as [[|h]|]; simpl.
    + repeat split; auto; lia.
    + destruct (cls_match ic k c) eqn:E; simpl.
      * destruct (IH (Some h)) as (H1 & H2 & H3). simpl in *.
        repeat split; [constructor; auto | lia | lia].
      * repeat split; auto; lia.
    + destruct (cls_match ic k c) eqn:E; simpl.
      * destruct (IH None) as (H1 & H2 & _). simpl in *.
        repeat split; [constructor; auto | lia].
      * repeat split; auto; lia.
Qed.

Lemma elem_of_extents j lo top g :
  j ∈ extents lo top g -> (lo <= j <= top)%nat.
Proof.
  unfold extents. intros H.
  assert (j ∈ seq lo (S top - lo)) as H'.
  { destruct g; [|exact H]. apply list_elem_of_In. apply in_rev. apply list_elem_of_In. exact H. }
  apply elem_of_seq in H'. lia.
Qed.

(** A success of the matcher has moved the cursor over a word of the
    pattern. *)
Lemma run_word ic r : forall st st',
  st' ∈ run ic r st ->
  exists w, rest st.1 = w ++ rest st'.1 /\ seen st'.1 = rev w ++ seen st.1
            /\ word_of ic r w.
Proof.
  induction r as [|k|a IHa b IHb|a IHa b IHb|a IHa|k lo hi g|n a IHa|];
    intros st st' H; simpl in H.
  - apply list_elem_of_singleton in H as ->. by exists [].
  - destruct (rest st.1) as [|c tl] eqn:E; [inversion H|].
    destruct (cls_match ic k c) eqn:Ek; [|inversion H].
    apply list_elem_of_singleton in H as ->. exists [c]. simpl.
    unfold advance. rewrite E. simpl. rewrite drop_0. eauto 6.
  - apply list_elem_of_bind in H as (mid & H2 & H1).
    destruct (IHa _ _ H1) as (u & Hu1 & Hu2 & Hu3).
    destruct (IHb _ _ H2) as (v & Hv1 & Hv2 & Hv3).
    exists (u ++ v). rewrite Hu1, Hv1, Hv2, Hu2, rev_app_distr, <- !app_assoc.
    simpl. eauto 7.
  - apply elem_of_app in H as [H|H].
    + destruct (IHa _ _ H) as (w & ? & ? & ?). exists w. simpl. auto.
    + destruct (IHb _ _ H) as (w & ? & ? & ?). exists w. simpl. auto.
  - apply elem_of_app in H as [H|H].
    + destruct (IHa _ _ H) as (w & ? & ? & ?). exists w. simpl. auto.
    + apply list_elem_of_singleton in H as ->. exists []. simpl. auto.
  - apply list_elem_of_fmap in H as (j & -> & Hj).
    apply elem_of_extents in Hj.
    destruct (span_spec ic k hi (rest st.1)) as (H1 & H2 & H3).
    exists (take j (rest st.1)). simpl. rewrite take_drop. split; [done|]. split; [done|].
    split; [|split].
    + replace j with (j `min` span ic k hi (rest st.1))%nat by lia.
      rewrite <- take_take. apply Forall_take. exact H1.
    + rewrite length_take. lia.
    + destruct hi; [|trivial]. rewrite length_take. lia.
  - apply list_elem_of_fmap in H as (mid & -> & H).
    destruct (IHa _ _ H) as (w & ? & ? & ?). exists w. simpl. auto.
  - destruct (at_boundary st.1); [|inversion H].
    apply list_elem_of_singleton in H as ->. by exists [].
Qed.

(** A group keeps its value, or takes a word of the pattern it encloses. *)
Lemma run_groups ic n r : forall st st',
  st' ∈ run ic r st ->
  lookup_group n st'.2 = lookup_group n st.2
  \/ exists w, lookup_group n st'.2 = Some w /\ group_word ic n r w.
Proof.
  induction r as [|k|a IHa b IHb|a IHa b IHb|a IHa|k lo hi g|k a IHa|];
    intros st st' H; simpl in H.
  - apply list_elem_of_singleton in H as ->. by left.
  - destruct (rest st.1) as [|c tl]; [inversion H|].
    destruct (cls_match ic k c); [|inversion H].
    apply list_elem_of_singleton in H as ->. by left.
  - apply list_elem_of_bind in H as (mid & H2 & H1).
    destruct (IHb _ _ H2) as [E2|(w & E2 & G2)].
    + rewrite E2. destruct (IHa _ _ H1) as [E1|(w & E1 & G1)]; [by left|].
      right. exists w. simpl. auto.
    + right. exists w. simpl. auto.
  - apply elem_of_app in H as [H|H].
    + destruct (IHa _ _ H) as [E|(w & E & G)]; [by left|]. right. exists w. simpl. auto.
    + destruct (IHb _ _ H) as [E|(w & E & G)]; [by left|]. right. exists w. simpl. auto.
  - apply elem_of_app in H as [H|H].
    + destruct (IHa _ _ H) as [E|(w & E & G)]; [by left|]. right. exists w. simpl. auto.
    + apply list_elem_of_singleton in H as ->. by left.
  - apply list_elem_of_fmap in H as (j & -> & Hj). by left.
  - apply list_elem_of_fmap in H as (mid & -> & H). simpl.
    destruct (k =? n)%nat eqn:E.
    + apply Nat.eqb_eq in E as ->. right.
      destruct (run_word _ _ _ _ H) as (w & Hw & _ & Hword).
      exists w. split; [|by left]. unfold set_group. rewrite Hw, length_app.
      replace (length w + length (rest mid.1) - length (rest mid.1))%nat
        with (length w) by lia.
      by rewrite take_app_length.
    + destruct (IHa _ _ H) as [E'|(w & E' & G)]; [by left|]. right. exists w. auto.
  - destruct (at_boundary st.1); [|inversion H].
    apply list_elem_of_singleton in H as ->. by left.
Qed.

Lemma run_keeps_group ic n r st st' :
  st' ∈ run ic r st -> is_Some (lookup_group n st.2) -> is_Some (lookup_group n st'.2).
Proof.
  intros H Hs. destruct (run_groups ic n r _ _ H) as [E|(w & E & _)]; rewrite E; eauto.
Qed.

(** A group that every path of the pattern goes through has a value after a
    match. *)
Lemma run_sets_group ic n r : forall st st',
  sets_group n r = true -> st' ∈ run ic r st -> is_Some (lookup_group n st'.2).
Proof.
  induction r as [|k|a IHa b IHb|a IHa b IHb|a IHa|k lo hi g|k a IHa|];
    intros st st' Hs H; simpl in Hs; try discriminate; simpl in H.
  - apply list_elem_of_bind in H as (mid & H2 & H1).
    apply orb_true_iff in Hs as [Hs|Hs].
    + eapply run_keeps_group; eauto.
    + eauto.
  - apply andb_true_iff in Hs as [Hsa Hsb].
    apply elem_of_app in H as [H|H]; eauto.
  - apply list_elem_of_fmap in H as (mid & -> & H). simpl.
    destruct (k =? n)%nat eqn:E; [eauto|]. simpl in Hs. eauto.
Qed.

(** [re.search]: the match it returns is a success of the matcher from the
    position where it starts, the text being what lies before and after. *)
Lemma search_at_run ic r : forall rs sn m,
  search_at ic r sn rs = Some m ->
  m_pattern m = r /\ (m_end m, m_caps m) ∈ run ic r (m_begin m, [])
  /\ rev sn ++ rs = rev (seen (m_begin m)) ++ rest (m_begin m).
Proof.
  induction rs as [|c tl IH]; intros sn m H; simpl in H.
  - destruct (run ic r (Cursor sn [], [])) as [|st l] eqn:E; [discriminate|].
    inversion H; subst; simpl. rewrite E. split; [done|]. split; [|done].
    destruct st. simpl. apply list_elem_of_here.
  - destruct (run ic r (Cursor sn (c :: tl), [])) as [|st l] eqn:E.
    + destruct (IH _ _ H) as (H1 & H2 & H3). split; [done|]. split; [done|].
      rewrite <- H3. simpl. by rewrite <- app_assoc.
    + inversion H; subst; simpl. rewrite E. split; [done|]. split; [|done].
      destruct st. simpl. apply list_elem_of_here.
Qed.

Lemma search_group ic r s m n :
  search ic r s = Some m -> (1 <= n <= ngroups r)%nat -> sets_group n r = true ->
  exists w, group m n = Some (Some w) /\ group_word ic n r w.
Proof.
  intros H Hn Hs. destruct (search_at_run _ _ _ _ _ H) as (Hp & Hrun & _).
  pose proof (run_sets_group ic n r _ _ Hs Hrun) as [w Hw]. simpl in Hw.
  destruct (run_groups ic n r _ _ Hrun) as [E|(w' & E & G)]; simpl in E.
  - rewrite Hw in E. discriminate.
  - exists w'. split; [|done]. unfold group. rewrite Hp.
    replace ((1 <=? n)%nat && (n <=? ngroups r)%nat) with true; [by rewrite E|].
    symmetry. apply andb_true_iff. split; apply Nat.leb_le; lia.
Qed.

Lemma search_optional_group ic r s m n :
  search ic r s = Some m -> (1 <= n <= ngroups r)%nat ->
  group m n = Some None \/ exists w, group m n = Some (Some w) /\ group_word ic n r w.
Proof.
  intros H Hn. destruct (search_at_run _ _ _ _ _ H) as (Hp & Hrun & _).
  assert (group m n = Some (lookup_group n (m_caps m))) as ->.
  { unfold group. rewrite Hp.
    replace ((1 <=? n)%nat && (n <=? ngroups r)%nat) with true; [done|].
    symmetry. apply andb_true_iff. split; apply Nat.leb_le; lia. }
  destruct (run_groups ic n r _ _ Hrun) as [E|(w' & E & G)]; simpl in E.
  - left. by rewrite E.
  - right. exists w'. by rewrite E.
Qed.

Lemma int_of_digits w : digits w -> exists z, Str.int_of w = Some z.
Proof.
  intros [Hd Hl]. unfold Str.int_of. destruct w as [|c tl]; [simpl in Hl; lia|].
  replace (forallb isdigit (c :: tl)) with true; [eauto|].
  symmetry. apply forallb_forall. intros x Hx.
  rewrite Forall_forall in Hd. apply Hd. by apply list_elem_of_In.
Qed.

Lemma digit_run_word ic r w : digit_run r = true -> word_of ic r w -> digits w.
Proof.
  destruct r as [| | | | |k lo hi g| |]; try discriminate.
  destruct k; try discriminate. unfold digit_run. intros Hlo (H1 & H2 & _).
  apply Nat.leb_le in Hlo. split; [exact H1 | lia].
Qed.

Lemma group_digits_word ic n r : forall w,
  group_digits n r = true -> group_word ic n r w -> digits w.
Proof.
  induction r as [|k|a IHa b IHb|a IHa b IHb|a IHa|k lo hi g|k a IHa|];
    intros w Hd Hw; simpl in Hd, Hw; try contradiction.
  - apply andb_true_iff in Hd as [Ha Hb]. destruct Hw; auto.
  - apply andb_true_iff in Hd as [Ha Hb]. destruct Hw; auto.
  - auto.
  - apply andb_true_iff in Hd as [Hk Ha]. destruct Hw as [[-> Hw]|Hw]; [|auto].
    rewrite Nat.eqb_refl in Hk. eapply digit_run_word; eauto.
Qed.

Lemma time_patterns_ok : forallb time_pattern_ok time_patterns = true.
Proof. vm_compute. reflexivity. Qed.

Lemma group_int_digits ic r s m n :
  search ic r s = Some m -> (1 <= n <= ngroups r)%nat ->
  group_digits n r = true ->
  forall w, group m n = Some (Some w) -> exists z, group_int m n = Ok z.
Proof.
  intros H Hn Hd w Hw.
  destruct (search_optional_group _ _ _ _ n H Hn) as [E|(w' & E & G)];
    rewrite E in Hw; [discriminate|]. inversion Hw; subst.
  destruct (int_of_digits w (group_digits_word _ _ _ _ Hd G)) as [z Hz].
  exists z. unfold group_int. by rewrite E, Hz.
Qed.

(** The loop over the time patterns raises nothing. *)
Lemma matched_time_total patterns t :
  forallb time_pattern_ok patterns = true ->
  exists h mi, matched_time patterns t = Ok (h, mi).
Proof.
  induction patterns as [|p ps IH]; simpl; [eauto|]. intros Hok.
  apply andb_true_iff in Hok as [Hp Hps].
  destruct (search false p t) as [m|] eqn:E; [|auto].
  unfold time_pattern_ok in Hp.
  repeat (apply andb_true_iff in Hp as [Hp ?]).
  apply Nat.leb_le in Hp.
  assert (ngroups p <= 2)%nat as Hn2 by by apply Nat.leb_le.
  destruct (search_at_run _ _ _ _ _ E) as (Hpat & _ & _).
  destruct (search_group _ _ _ _ 1 E) as (w1 & G1 & W1); [lia|done|].
  destruct (group_int_digits _ _ _ _ 1 E ltac:(lia) ltac:(done) _ G1) as [h ->].
  simpl. unfold groups_len. rewrite Hpat.
  destruct (1 <? ngroups p)%nat eqn:E2; [|eauto].
  apply Nat.ltb_lt in E2.
  destruct (search_optional_group _ _ _ _ 2 E) as [G2|(w2 & G2 & W2)]; [lia| |].
  - unfold group_true. rewrite G2. simpl. eauto.
  - destruct (group_int_digits _ _ _ _ 2 E ltac:(lia) ltac:(done) _ G2) as [mi Hmi].
    unfold group_true. rewrite G2.
    destruct (group_digits_word false 2 p w2 ltac:(done) W2) as [_ Hl].
    destruct w2; [simpl in Hl; lia|]. simpl. rewrite Hmi. simpl. eauto.
Qed.

Lemma group_text_ok ic p t m :
  field_pattern_ok p = true -> search ic p t = Some m ->
  exists w, group m 1 = Some (Some w) /\ group_text m 1 = Ok w.
Proof.
  intros Hp E. apply andb_true_iff in Hp as [Hn Hs]. apply Nat.leb_le in Hn.
  destruct (search_group _ _ _ _ 1 E) as (w & G & _); [lia|done|].
  exists w. split; [done|]. unfold group_text. by rewrite G.
Qed.

Lemma first_found_some ps t p m :
  first_found ps t = Some (p, m) ->
  exists before after,
    ps = before ++ p :: after
    /\ Forall (fun q => search true q t = None) before
    /\ search true p t = Some m.
Proof.
  induction ps as [|q ps IH]; simpl; [discriminate|].
  destruct (search true q t) as [m'|] eqn:E.
  - intros [= -> ->]. exists [], ps. by repeat split.
  - intros H. destruct (IH H) as (before & after & -> & Hb & Hs).
    exists (q :: before), after. split; [done|]. split; [by constructor|done].
Qed.

Lemma first_found_none ps t :
  first_found ps t = None <-> existsb (found true t) ps = false.
Proof.
  induction ps as [|q ps IH]; simpl; [done|]. unfold found at 1.
  destruct (search true q t) as [m'|] eqn:E.
  - rewrite bool_decide_eq_true_2 by eauto. simpl. split; discriminate.
  - rewrite bool_decide_eq_false_2; [exact IH|]. by intros [? ?].
Qed.

Lemma location_patterns_ok :
  forallb (fun p => (ngroups p =? 1)%nat && sets_group 1 p) location_patterns = true.
Proof. vm_compute. reflexivity. Qed.

Lemma type_patterns_ok : forallb field_pattern_ok type_patterns = true.
Proof. vm_compute. reflexivity. Qed.

Lemma impact_patterns_ok : forallb field_pattern_ok impact_patterns = true.
Proof. vm_compute. reflexivity. Qed.

Lemma group_text_first ic p t m :
  field_pattern_ok p = true -> search ic p t = Some m ->
  group m 1 = Some (Some (first_group m)) /\ group_text m 1 = Ok (first_group m).
Proof.
  intros Hp E. destruct (group_text_ok ic p t m Hp E) as (w & G & T).
  assert (first_group m = w) as ->; [|done].
  unfold group in G. unfold first_group.
  destruct ((1 <=? 1)%nat && (1 <=? ngroups (m_pattern m))%nat); [|discriminate].
  injection G as G. by rewrite G.
Qed.

Lemma location_loop_spec t ps :
  forallb (fun p => (ngroups p =? 1)%nat && sets_group 1 p) ps = true ->
  _extract_location_loop ps t =
    match first_found ps t with
    | None => Ok (py "N/A")
    | Some (p, m) => Ok (Str.strip (first_group m))
    end.
Proof.
  induction ps as [|p ps IH]; simpl; [done|]. intros Hok.
  apply andb_true_iff in Hok as [Hp Hok].
  destruct (search true p t) as [m|] eqn:E; [|exact (IH Hok)].
  apply andb_true_iff in Hp as [Hn Hs]. apply Nat.eqb_eq in Hn.
  destruct (search_at_run _ _ _ _ _ E) as (Hpat & _ & _).
  unfold groups_len. rewrite Hpat, Hn. simpl.
  assert (field_pattern_ok p = true) as Hf.
  { unfold field_pattern_ok. by rewrite Hn, Hs. }
  destruct (group_text_first true p t m Hf E) as [_ ->]. done.
Qed.

Lemma type_loop_spec t ps :
  forallb field_pattern_ok ps = true ->
  _extract_incident_type_loop ps t =
    match first_found ps t with
    | None => Ok (py "Incidente não especificado")
    | Some (p, m) => Ok (Str.capitalize (Str.strip (first_group m)))
    end.
Proof.
  induction ps as [|p ps IH]; simpl; [done|]. intros Hok.
  apply andb_true_iff in Hok as [Hp Hok].
  destruct (search true p t) as [m|] eqn:E; [|exact (IH Hok)].
  destruct (group_text_first true p t m Hp E) as [_ ->]. done.
Qed.

Lemma impact_loop_spec t ps :
  forallb field_pattern_ok ps = true ->
  _extract_impact_loop ps t =
    match first_found ps t with
    | None => Ok (Str.truncated 100 t)
    | Some (p, m) => Ok (Str.strip (first_group m))
    end.
Proof.
  induction ps as [|p ps IH]; simpl; [done|]. intros Hok.
  apply andb_true_iff in Hok as [Hp Hok].
  destruct (search true p t) as [m|] eqn:E; [|exact (IH Hok)].
  destruct (group_text_first true p t m Hp E) as [_ ->]. done.
Qed.

Lemma location_total t : exists v, _extract_location t = Ok v.
Proof.
  unfold _extract_location. rewrite (location_loop_spec _ _ location_patterns_ok).
  destruct (first_found location_patterns t) as [[p m]|]; eauto.
Qed.

Lemma incident_type_total t : exists v, _extract_incident_type t = Ok v.
Proof.
  unfold _extract_incident_type. rewrite (type_loop_spec _ _ type_patterns_ok).
  destruct (first_found type_patterns t) as [[p m]|]; eauto.
Qed.

Lemma impact_total t : exists v, _extract_impact t = Ok v.
Proof.
  unfold _extract_impact. rewrite (impact_loop_spec _ _ impact_patterns_ok).
  destruct (first_found impact_patterns t) as [[p m]|]; eauto.
Qed.

Lemma search_pattern ic r s m : search ic r s = Some m -> m_pattern m = r.
Proof. intros H. by destruct (search_at_run _ _ _ _ _ H) as (Hp & _). Qed.


Lemma startswith_iff p : forall s,
  Str.startswith p s = true <-> exists post, s = p ++ post.
Proof.
  induction p as [|a p IH]; intros s; simpl.
  - split; [eauto|done].
  - destruct s as [|b s].
    + split; [discriminate|]. by intros [post ?].
    + rewrite andb_true_iff, N.eqb_eq, IH. split.
      * intros [-> [post ->]]. eauto.
      * intros [post [= -> ->]]. eauto.
Qed.

Lemma contains_iff w : forall s,
  Str.contains w s = true <-> exists pre post, s = pre ++ w ++ post.
Proof.
  induction s as [|c tl IH]; simpl.
  - rewrite orb_false_r, startswith_iff. split.
    + intros [post ->]. by exists [], post.
    + intros (pre & post & H). symmetry in H.
      apply app_eq_nil in H as [-> H]. eauto.
  - rewrite orb_true_iff, startswith_iff, IH. split.
    + intros [[post ->]|(pre & post & ->)].
      * by exists [], post.
      * by exists (c :: pre), post.
    + intros (pre & post & H). destruct pre as [|c' pre].
      * left. eauto.
      * right. injection H as -> ->. eauto.
Qed.

Lemma contains_anteontem_ontem s :
  Str.contains (py "anteontem") s = true -> Str.contains (py "ontem") s = true.
Proof.
  rewrite !contains_iff. intros (pre & post & ->).
  exists (pre ++ py "ante"), post.
  change (py "anteontem") with (py "ante" ++ py "ontem").
  by rewrite <- !app_assoc.
Qed.

(** The day that the extraction takes: the day before the clock's when the
    text in lower case holds "ontem" or "yesterday", also inside a longer
    word, and the clock's day otherwise.  The branch of [anteontem] is never
    taken: the text then holds [ontem] too, which is looked for first. *)
Lemma target_date_cases now s :
  target_date now s =
    if Str.contains (py "ontem") s || Str.contains (py "yesterday") s
    then (if first_day now then Raise (OverflowError (py "date value out of range"))
          else Ok (day_before now))
    else Ok now.
Proof.
  unfold target_date.
  destruct (Str.contains (py "ontem") s || Str.contains (py "yesterday") s) eqn:E1.
  { cbn [minus_days]. by destruct (first_day now). }
  destruct (Str.contains (py "hoje") s || Str.contains (py "today") s); [done|].
  destruct (Str.contains (py "anteontem") s) eqn:E3; [|done].
  apply contains_anteontem_ontem in E3. rewrite E3 in E1. discriminate.
Qed.

Lemma overflows_cases now t :
  (overflows now t = true /\
     target_date now (Str.lower t) = Raise (OverflowError (py "date value out of range")))
  \/ (overflows now t = false /\
      target_date now (Str.lower t) =
        Ok (if Str.contains (py "ontem") (Str.lower t)
               || Str.contains (py "yesterday") (Str.lower t)
            then day_before now else now)).
Proof.
  rewrite target_date_cases. unfold overflows.
  destruct (Str.contains (py "ontem") (Str.lower t)
            || Str.contains (py "yesterday") (Str.lower t)); [|by right].
  destruct (first_day now); [by left|by right].
Qed.

Lemma extract_date_info_cases now t tg h mi :
  target_date now (Str.lower t) = Ok tg ->
  matched_time time_patterns (Str.lower t) = Ok (h, mi) ->
  _extract_date_info now t =
    if 23 <? h then Raise (ValueError (py "hour must be in 0..23"))
    else if 59 <? mi then Raise (ValueError (py "minute must be in 0..59"))
    else Ok (strftime_minute (Datetime (year tg) (month tg) (day tg) h mi)).
Proof.
  intros Ht H. unfold _extract_date_info. cbv zeta. rewrite Ht, H. simpl.
  unfold replace. destruct (23 <? h); [done|]. destruct (59 <? mi); done.
Qed.


Lemma fallback_try_date now t :
  (forall d, _extract_date_info now t = Ok d ->
     exists l ty im, fallback_try now t =
       Ok (ParseResult (py "success") (incident_record d l ty im)
             (Some (py "regex_fallback")) None))
  /\ (forall e, _extract_date_info now t = Raise e -> fallback_try now t = Raise e).
Proof.
  unfold fallback_try. split.
  - intros d ->. simpl.
    destruct (location_total t) as [l ->].
    destruct (incident_type_total t) as [ty ->].
    destruct (impact_total t) as [im ->]. simpl. eauto.
  - by intros e ->.
Qed.




(** ** The field extractors *)

(** The branch of [anteontem] is never taken: the text then holds [ontem]
    too, which is looked for first. *)
Lemma target_date_anteontem now s :
  Str.contains (py "anteontem") s = true -> target_date now s = minus_days now 1.
Proof.
  intros H. unfold target_date. by rewrite (contains_anteontem_ontem s H).
Qed.

(** C3: date extraction reads a text with "anteontem" as one with "ontem":
    with the clock at 2025-09-07 it answers 2025-09-06, not 2025-09-05; the
    example of the text with "ontem" gives 2025-09-06 14:00 as claimed. *)
Theorem C3_anteontem_read_as_ontem :
  _extract_date_info now0 (py "anteontem às 14h") = Ok (py "2025-09-06 14:00")
  /\ _extract_date_info now0 (py "ontem às 14h") = Ok (py "2025-09-06 14:00")
  /\ _extract_date_info now0 (py "hoje às 14h") = Ok (py "2025-09-07 14:00")
  /\ _extract_date_info now0 (py "falha no servidor") = Ok (py "2025-09-07 00:00").
Proof. repeat split; vm_compute; reflexivity. Qed.

Lemma ngroups_location p :
  p ∈ location_patterns -> ngroups p = 1%nat.
Proof.
  intros H. pose proof location_patterns_ok as Hok.
  rewrite forallb_forall in Hok. apply list_elem_of_In in H.
  specialize (Hok p H). apply andb_true_iff in Hok as [Hn _]. by apply Nat.eqb_eq.
Qed.

(** C9, as the code has it: the location patterns are tried in their declared
    order, each has exactly one capture group, and the answer is the first
    group of the first pattern found, trimmed; there is no second group to
    return.  With no pattern found the answer is "N/A". *)
Theorem C9_location_first_pattern_first_group (t : str) :
  _extract_location t =
    match first_found location_patterns t with
    | None => Ok (py "N/A")
    | Some (p, m) => Ok (Str.strip (first_group m))
    end
  /\ (forall p m, first_found location_patterns t = Some (p, m) ->
        groups_len m = 1%nat
        /\ group m 1 = Some (Some (first_group m))
        /\ group m 2 = None
        /\ exists before after,
             location_patterns = before ++ p :: after
             /\ Forall (fun q => search true q t = None) before
             /\ search true p t = Some m).
Proof.
  split.
  - apply location_loop_spec, location_patterns_ok.
  - intros p m H.
    destruct (first_found_some _ _ _ _ H) as (before & after & Hl & Hb & Hs).
    assert (ngroups p = 1%nat) as Hn.
    { apply ngroups_location. rewrite Hl. apply elem_of_app. right. left. }
    destruct (search_at_run _ _ _ _ _ Hs) as (Hp & _ & _).
    assert (field_pattern_ok p = true) as Hf.
    { pose proof location_patterns_ok as Hok. rewrite forallb_forall in Hok.
      assert (In p location_patterns) as Hin.
      { rewrite Hl. apply in_or_app. right. by left. }
      specialize (Hok p Hin). apply andb_true_iff in Hok as [_ Hsg].
      unfold field_pattern_ok. by rewrite Hn, Hsg. }
    split; [unfold groups_len; by rewrite Hp|].
    split; [apply (group_text_first true p t m Hf Hs)|].
    split; [unfold group; by rewrite Hp, Hn|eauto].
Qed.

(** The claim of C9 fails on the office pattern: in "no escritório de
    Recife" it is found, the answer is "Recife", its first group, and the
    match has no second group. *)
Lemma C9_counterexample :
  ~ (forall t m,
       search true (hd Eps location_patterns) t = Some m ->
       exists w, group m 2 = Some (Some w) /\ _extract_location t = Ok (Str.strip w)).
Proof.
  intros claim.
  assert (found true (py "no escritório de Recife") (hd Eps location_patterns) = true)
    as F by (vm_compute; reflexivity).
  apply bool_decide_eq_true in F as [m E].
  destruct (claim _ _ E) as (w & G & _).
  pose proof (search_pattern _ _ _ _ E) as Hp.
  unfold group in G. rewrite Hp in G.
  replace (ngroups (hd Eps location_patterns)) with 1%nat in G
    by (vm_compute; reflexivity).
  simpl in G. discriminate.
Qed.

Example location_office :
  _extract_location (py "no escritório de Recife") = Ok (py "Recife").
Proof. vm_compute. reflexivity. Qed.

(** ** The deterministic extractor *)

Lemma fallback_try_ok now t d :
  _extract_date_info now t = Ok d ->
  fallback_try now t =
    (l <- _extract_location t;; ty <- _extract_incident_type t;;
     im <- _extract_impact t;;
     Ok (ParseResult (py "success") (incident_record d l ty im)
           (Some (py "regex_fallback")) None)).
Proof. intros H. unfold fallback_try. by rewrite H. Qed.

(** C6, as the code has it: with no location, type or impact pattern found,
    the three field extractors answer "N/A", "Incidente não especificado" and
    the text itself, cut to 100 characters and "..." when longer; the record
    of the deterministic extractor carries these when date extraction does
    not raise. *)
Theorem C6_no_pattern_found (now : datetime) (t : str) (err : option str) :
  existsb (found true t) location_patterns = false ->
  existsb (found true t) type_patterns = false ->
  existsb (found true t) impact_patterns = false ->
  _extract_location t = Ok (py "N/A")
  /\ _extract_incident_type t = Ok (py "Incidente não especificado")
  /\ _extract_impact t
     = Ok (if (length t <=? 100)%nat then t else take 100 t ++ py "...")
  /\ (forall d, _extract_date_info now t = Ok d ->
        _fallback_incident_parsing now t err =
          ParseResult (py "success")
            (incident_record d (py "N/A") (py "Incidente não especificado")
               (if (length t <=? 100)%nat then t else take 100 t ++ py "..."))
            (Some (py "regex_fallback")) None).
Proof.
  intros Hl Hty Him.
  apply first_found_none in Hl, Hty, Him.
  assert (_extract_location t = Ok (py "N/A")) as El.
  { unfold _extract_location.
    by rewrite (location_loop_spec _ _ location_patterns_ok), Hl. }
  assert (_extract_incident_type t = Ok (py "Incidente não especificado")) as Ety.
  { unfold _extract_incident_type.
    by rewrite (type_loop_spec _ _ type_patterns_ok), Hty. }
  assert (_extract_impact t
          = Ok (if (length t <=? 100)%nat then t else take 100 t ++ py "...")) as Eim.
  { unfold _extract_impact.
    rewrite (impact_loop_spec _ _ impact_patterns_ok), Him.
    unfold Str.truncated. rewrite Nat.ltb_antisym.
    by destruct (length t <=? 100)%nat. }
  repeat split; try done.
  intros d Hd. unfold _fallback_incident_parsing.
  by rewrite (fallback_try_ok _ _ _ Hd), El, Ety, Eim.
Qed.

Lemma C6_witness :
  _extract_location (py "Sistema offline") = Ok (py "N/A")
  /\ _extract_incident_type (py "Sistema offline") = Ok (py "Incidente não especificado")
  /\ _extract_impact (py "Sistema offline") = Ok (py "Sistema offline").
Proof.
  destruct (C6_no_pattern_found now0 (py "Sistema offline") None)
    as (H1 & H2 & H3 & _); [vm_compute; reflexivity ..|].
  split; [exact H1|]. split; [exact H2|exact H3].
Defined.

(** The claim of C6 fails on "30h": no field pattern is found in it, and the
    record of the deterministic extractor has the incident type "Erro no
    processamento", the hour 30 being refused. *)
Lemma C6_counterexample :
  ~ (forall now t err,
       existsb (found true t) location_patterns = false ->
       existsb (found true t) type_patterns = false ->
       existsb (found true t) impact_patterns = false ->
       exists d,
         incident (_fallback_incident_parsing now t err)
         = incident_record d (py "N/A") (py "Incidente não especificado")
             (Str.truncated 100 t)).
Proof.
  intros claim.
  destruct (claim now0 (py "30h") None) as [d H]; [vm_compute; reflexivity ..|].
  apply (f_equal (fun j => match j with
                           | JObj m => m !! py "tipo_incidente"
                           | _ => None
                           end)) in H.
  vm_compute in H. discriminate.
Qed.


(** C7, as the code has it: when the [try] block of the deterministic
    extractor raises, the caller receives status "error", a message "Parsing
    failed: " followed by the error text, and a record with the clock's date
    and time of day (not 00:00), "N/A", the incident type "Erro no
    processamento", and the raw text cut to 100 characters and "..." when
    longer, which is at most 103 characters and starts as the raw text
    does. *)
Theorem C7_error_record (now : datetime) (t : str) (err : option str) (e : exn) :
  fallback_try now t = Raise e ->
  _fallback_incident_parsing now t err =
    ParseResult (py "error")
      (incident_record
         (strftime_date now ++ py " " ++ Str.pad 2 (hour now) ++ py ":"
          ++ Str.pad 2 (minute now))
         (py "N/A") (py "Erro no processamento")
         (if (length t <=? 100)%nat then t else take 100 t ++ py "..."))
      None (Some (py "Parsing failed: " ++ error_or err e))
  /\ (length (Str.truncated 100 t) <= 103)%nat
  /\ take 100 (Str.truncated 100 t) = take 100 t.
Proof.
  intros H. split; [|split].
  - unfold _fallback_incident_parsing. rewrite H. unfold Str.truncated.
    rewrite Nat.ltb_antisym. unfold strftime_minute.
    by destruct (length t <=? 100)%nat.
  - unfold Str.truncated. destruct (100 <? length t)%nat eqn:E.
    + rewrite length_app, length_take. change (length (py "...")) with 3%nat. lia.
    + apply Nat.ltb_ge in E. lia.
  - unfold Str.truncated. destruct (100 <? length t)%nat eqn:E; [|done].
    apply Nat.ltb_lt in E. rewrite take_app_le by (rewrite length_take; lia).
    by rewrite take_take, Nat.min_id.
Qed.

Lemma C7_witness :
  status (_fallback_incident_parsing now0 (py "30h") None) = py "error"
  /\ message (_fallback_incident_parsing now0 (py "30h") None)
     = Some (py "Parsing failed: hour must be in 0..23").
Proof.
  destruct (C7_error_record now0 (py "30h") None
              (ValueError (py "hour must be in 0..23"))) as [H _].
  - vm_compute. reflexivity.
  - rewrite H. split; vm_compute; reflexivity.
Defined.

(** The claim of C7 fails on "30h" with the clock at 2025-09-07 10:30: the
    record has the time 10:30 and the type "Erro no processamento". *)
Lemma C7_counterexample :
  ~ (forall now t err,
       raises (fallback_try now t) = true ->
       incident (_fallback_incident_parsing now t err) = error_record_as_claimed now t).
Proof.
  intros claim.
  pose proof (claim now0 (py "30h") None) as H.
  assert (raises (fallback_try now0 (py "30h")) = true) as R
    by (vm_compute; reflexivity).
  specialize (H R).
  apply (f_equal (fun j => match j with
                           | JObj m => m !! py "data_ocorrencia"
                           | _ => None
                           end)) in H.
  vm_compute in H. discriminate.
Qed.

(** ** The generative path and its fallback *)

Lemma fallback_error_only_message now t err :
  status (_fallback_incident_parsing now t err)
    = status (_fallback_incident_parsing now t None)
  /\ incident (_fallback_incident_parsing now t err)
    = incident (_fallback_incident_parsing now t None)
  /\ method (_fallback_incident_parsing now t err)
    = method (_fallback_incident_parsing now t None)
  /\ (raises (fallback_try now t) = false ->
      _fallback_incident_parsing now t err = _fallback_incident_parsing now t None).
Proof.
  unfold _fallback_incident_parsing. destruct (fallback_try now t); simpl; by repeat split.
Qed.

Lemma generative_failure_falls_back json_loads post env now t url model err :
  generative_failure json_loads (post (request_of env now t url model)) err ->
  parse_incident_structure json_loads post env now t url model
  = _fallback_incident_parsing now t err.
Proof.
  intros H. unfold parse_incident_structure, generative_try.
  inversion H as [e E|code body Hc E|e E|payload s msg Hs Hl E]; subst; simpl.
  - done.
  - destruct (code =? 200)%Z eqn:Ec; [|done]. apply Z.eqb_eq in Ec. contradiction.
  - done.
  - rewrite Hs. simpl. by rewrite Hl.
Qed.

(** C1, as the code has it: when the generative path fails, the parser
    returns what the deterministic extractor returns for the raw text and
    the error text of the failure: the same status, record and method as the
    extractor alone, and the same result altogether when the failure
    carries no error text (a status, an undecodable text of the model), or
    when the extractor does not itself fail.  When the extractor fails too,
    only the message can differ: it is "Parsing failed: " followed by the
    error text of the generative failure if there is one and it is not
    empty, and by the text of the extractor's own error otherwise, as for the
    extractor alone. *)
Theorem C1_failure_falls_back json_loads post env now t url model err :
  generative_failure json_loads (post (request_of env now t url model)) err ->
  let r := parse_incident_structure json_loads post env now t url model in
  let alone := _fallback_incident_parsing now t None in
  r = _fallback_incident_parsing now t err
  /\ status r = status alone /\ incident r = incident alone
  /\ method r = method alone
  /\ (err = None -> r = alone)
  /\ (raises (fallback_try now t) = false -> r = alone)
  /\ (forall e, fallback_try now t = Raise e ->
        message alone = Some (py "Parsing failed: " ++ exn_str e)
        /\ message r = Some (py "Parsing failed: " ++
                               match err with
                               | Some (c :: tl) => c :: tl
                               | _ => exn_str e
                               end)).
Proof.
  intros H r alone. subst r alone.
  rewrite (generative_failure_falls_back _ _ _ _ _ _ _ _ H).
  destruct (fallback_error_only_message now t err) as (H1 & H2 & H3 & H4).
  split; [done|]. split; [done|]. split; [done|]. split; [done|].
  split; [by intros ->|]. split; [done|].
  intros e He. unfold _fallback_incident_parsing. rewrite He. cbv zeta. simpl.
  split; [done|]. unfold error_or. by destruct err as [[|c tl]|].
Qed.

Lemma C1_witness :
  parse_incident_structure example_loads unreachable None now0
    (py "Falha no servidor, ontem às 14h") None (py "tinyllama")
  = _fallback_incident_parsing now0 (py "Falha no servidor, ontem às 14h") None.
Proof.
  refine (proj1 (proj2 (proj2 (proj2 (proj2 (proj2
    (C1_failure_falls_back example_loads unreachable None now0
       (py "Falha no servidor, ontem às 14h") None (py "tinyllama")
       (Some (py "All connection attempts failed")) _)))))) _).
  - apply (failure_raises example_loads
             (TransportError (py "All connection attempts failed"))).
  - vm_compute. reflexivity.
Defined.

(** The claim of C1 fails when the service cannot be reached and the text is
    "30h", on which the extractor fails too: the message is that of the
    transport error, not the one the extractor alone gives. *)
Lemma C1_counterexample :
  ~ (forall json_loads post env now t url model e,
       post (request_of env now t url model) = PostRaises e ->
       parse_incident_structure json_loads post env now t url model
       = _fallback_incident_parsing now t None).
Proof.
  intros claim.
  pose proof (claim example_loads unreachable None now0 (py "30h") None
                (py "tinyllama") _ eq_refl) as H.
  apply (f_equal message) in H. vm_compute in H. discriminate.
Qed.

(** ** The validation of the model's object *)

Lemma not_in_obj f m : not_in f (JObj m) = Ok (bool_decide (m !! f = None)).
Proof. done. Qed.

Lemma fill_required_keeps f : forall fs v v',
  not_in f v = Ok false -> fill_required fs v = Ok v' -> not_in f v' = Ok false.
Proof.
  induction fs as [|f0 fs IH]; simpl; intros v v' Hf H.
  - by injection H as <-.
  - destruct (not_in f0 v) as [[|]|e] eqn:E0; simpl in H; try discriminate.
    + destruct v as [| | | | |m]; simpl in H; try discriminate.
      apply (IH _ _) in H; [done|].
      rewrite not_in_obj in Hf |- *. injection Hf as Hf. f_equal.
      apply bool_decide_eq_false in Hf. apply bool_decide_eq_false.
      destruct (decide (f0 = f)) as [->|Hne].
      * by rewrite lookup_insert_eq.
      * by rewrite lookup_insert_ne.
    + eauto.
Qed.

(** After the validation, each required field is in the value. *)
Lemma fill_required_has : forall fs v v',
  fill_required fs v = Ok v' -> forall f, f ∈ fs -> not_in f v' = Ok false.
Proof.
  induction fs as [|f0 fs IH]; simpl; intros v v' H f Hf.
  - by apply elem_of_nil in Hf.
  - destruct (not_in f0 v) as [[|]|e] eqn:E0; simpl in H; try discriminate.
    + destruct v as [| | | | |m]; simpl in H; try discriminate.
      apply elem_of_cons in Hf as [->|Hf]; [|eauto].
      eapply fill_required_keeps; [|exact H].
      rewrite not_in_obj. f_equal. apply bool_decide_eq_false.
      by rewrite lookup_insert_eq.
    + apply elem_of_cons in Hf as [->|Hf]; [|eauto].
      eapply fill_required_keeps; eauto.
Qed.

(** On an object, the validation adds "N/A" under each required field that
    is absent and changes nothing else. *)
Lemma fill_required_object : forall fs obj,
  exists filled,
    fill_required fs (JObj obj) = Ok (JObj filled)
    /\ forall k, filled !! k =
         if bool_decide (k ∈ fs)
         then Some (default (JStr (py "N/A")) (obj !! k))
         else obj !! k.
Proof.
  induction fs as [|f0 fs IH]; intros obj.
  - exists obj. split; [done|]. intros k.
    rewrite bool_decide_eq_false_2; [done|]. apply not_elem_of_nil.
  - cbn [fill_required]. rewrite not_in_obj. cbn [bind].
    destruct (obj !! f0) as [x|] eqn:E0.
    + rewrite bool_decide_eq_false_2 by done.
      destruct (IH obj) as (filled & Hf & Hk). exists filled. split; [done|].
      intros k. rewrite Hk.
      destruct (decide (k = f0)) as [->|Hne].
      * rewrite (bool_decide_eq_true_2 (f0 ∈ f0 :: fs)) by left.
        rewrite E0. simpl. by destruct (bool_decide (f0 ∈ fs)).
      * destruct (bool_decide (k ∈ fs)) eqn:Ek.
        -- apply bool_decide_eq_true in Ek.
           rewrite bool_decide_eq_true_2; [done|by right].
        -- apply bool_decide_eq_false in Ek.
           rewrite bool_decide_eq_false_2; [done|].
           intros [?|?]%elem_of_cons; done.
    + rewrite bool_decide_eq_true_2 by done. cbn [setitem bind].
      destruct (IH (<[f0 := JStr (py "N/A")]> obj)) as (filled & Hf & Hk).
      exists filled. split; [done|]. intros k. rewrite Hk.
      destruct (decide (k = f0)) as [->|Hne].
      * rewrite (bool_decide_eq_true_2 (f0 ∈ f0 :: fs)) by left.
        rewrite lookup_insert_eq, E0. simpl. by destruct (bool_decide (f0 ∈ fs)).
      * rewrite lookup_insert_ne by done.
        destruct (bool_decide (k ∈ fs)) eqn:Ek.
        -- apply bool_decide_eq_true in Ek.
           rewrite bool_decide_eq_true_2; [done|by right].
        -- apply bool_decide_eq_false in Ek.
           rewrite bool_decide_eq_false_2; [done|].
           intros [?|?]%elem_of_cons; done.
Qed.

(** C4, as the code has it: when the text of the model decodes as an object,
    the parser returns status "success" and that object, in which each of
    the four required fields that was absent holds "N/A", whichever field it
    is, and every entry of the model, required or not, is kept as it is. *)
Theorem C4_missing_fields_filled json_loads post env now t url model payload s obj :
  post (request_of env now t url model) = Response 200 (Ok payload) ->
  llm_response_of payload = Ok s ->
  json_loads s = Ok (JObj obj) ->
  exists filled,
    parse_incident_structure json_loads post env now t url model
    = ParseResult (py "success") (JObj filled) None None
    /\ (forall f, f ∈ required_fields ->
          filled !! f = Some (default (JStr (py "N/A")) (obj !! f)))
    /\ (forall k x, obj !! k = Some x -> filled !! k = Some x)
    /\ (forall k, k ∉ required_fields -> filled !! k = obj !! k).
Proof.
  intros Hp Hs Hl.
  destruct (fill_required_object required_fields obj) as (filled & Hf & Hk).
  exists filled. split; [|split; [|split]].
  - unfold parse_incident_structure, generative_try. rewrite Hp, Z.eqb_refl.
    cbn [bind]. rewrite Hs. cbn [bind]. rewrite Hl. cbn [bind]. by rewrite Hf.
  - intros f Hin. rewrite Hk. by rewrite bool_decide_eq_true_2.
  - intros k x Hx. rewrite Hk, Hx. by destruct (bool_decide (k ∈ required_fields)).
  - intros k Hin. rewrite Hk. by rewrite bool_decide_eq_false_2.
Qed.

Lemma C4_witness :
  exists filled,
    parse_incident_structure example_loads (reply_with without_local_text)
      None now0 (py "Falha ontem") None (py "tinyllama")
    = ParseResult (py "success") (JObj filled) None None
    /\ filled !! py "local" = Some (JStr (py "N/A"))
    /\ filled !! py "impacto" = Some (JStr (py "sistema parado por 2 horas")).
Proof.
  destruct (C4_missing_fields_filled example_loads (reply_with without_local_text)
              None now0 (py "Falha ontem") None (py "tinyllama") _
              without_local_text without_local eq_refl)
    as (filled & H & Hreq & Hkeep & _).
  - vm_compute. reflexivity.
  - vm_compute. reflexivity.
  - exists filled. split; [exact H|]. split.
    + rewrite Hreq by (vm_compute; set_solver). vm_compute. reflexivity.
    + apply Hkeep. vm_compute. reflexivity.
Defined.

(** The claim of C4 fails on the empty object: the incident type, absent, is
    filled with "N/A" and not with "Incidente não especificado". *)
Lemma C4_counterexample :
  ~ (forall json_loads post env now t url model payload s obj,
       post (request_of env now t url model) = Response 200 (Ok payload) ->
       llm_response_of payload = Ok s ->
       json_loads s = Ok (JObj obj) ->
       obj !! py "tipo_incidente" = None ->
       exists filled,
         incident (parse_incident_structure json_loads post env now t url model)
         = JObj filled
         /\ filled !! py "tipo_incidente"
            = Some (JStr (py "Incidente não especificado"))).
Proof.
  intros claim.
  destruct (claim example_loads (reply_with (py "{}")) None now0 (py "Falha ontem")
              None (py "tinyllama") _ (py "{}") ∅ eq_refl)
    as (filled & H & Hty).
  - vm_compute. reflexivity.
  - vm_compute. reflexivity.
  - vm_compute. reflexivity.
  - apply (f_equal (fun j => match j with
                             | JObj m => m !! py "tipo_incidente"
                             | _ => None
                             end)) in H.
    rewrite Hty in H. vm_compute in H. discriminate.
Qed.

(** ** The shape of the record *)

Lemma incident_record_four_texts d l ty im : four_texts (incident_record d l ty im).
Proof.
  exists (<[py "data_ocorrencia" := JStr d]>
          (<[py "local" := JStr l]>
           (<[py "tipo_incidente" := JStr ty]>
            (<[py "impacto" := JStr im]> ∅)))).
  split; [done|]. split.
  - rewrite !dom_insert_L, dom_empty_L. unfold required_fields. simpl. set_solver.
  - intros k x H.
    repeat (apply lookup_insert_Some in H as [[_ <-]|[_ H]]; [eauto|]).
    by rewrite lookup_empty in H.
Qed.

Lemma fallback_try_record now t r :
  fallback_try now t = Ok r ->
  exists d l ty im,
    r = ParseResult (py "success") (incident_record d l ty im)
          (Some (py "regex_fallback")) None.
Proof.
  unfold fallback_try.
  destruct (_extract_date_info now t) as [d|]; [|discriminate].
  destruct (_extract_location t) as [l|]; [|discriminate].
  destruct (_extract_incident_type t) as [ty|]; [|discriminate].
  destruct (_extract_impact t) as [im|]; [|discriminate].
  cbn [bind]. intros [= <-]. eauto.
Qed.

(** Whatever the error, the deterministic extractor returns a record of
    exactly the four fields, each a text. *)
Lemma fallback_four_texts now t err :
  four_texts (incident (_fallback_incident_parsing now t err)).
Proof.
  unfold _fallback_incident_parsing.
  destruct (fallback_try now t) as [r|e] eqn:E.
  - destruct (fallback_try_record _ _ _ E) as (d & l & ty & im & ->).
    apply incident_record_four_texts.
  - apply incident_record_four_texts.
Qed.

(** The two ways the parser ends: with the result of the deterministic
    extractor, or with the decoded value of the model after validation. *)
Lemma parse_incident_structure_cases json_loads post env now t url model :
  let r := parse_incident_structure json_loads post env now t url model in
  (exists err, r = _fallback_incident_parsing now t err)
  \/ (exists s parsed v,
        json_loads s = Ok parsed
        /\ fill_required required_fields parsed = Ok v
        /\ r = ParseResult (py "success") v None None).
Proof.
  unfold parse_incident_structure, generative_try.
  destruct (post (request_of env now t url model)) as [e|code body]; [eauto|].
  destruct (code =? 200)%Z; [|eauto].
  destruct body as [payload|e]; cbn [bind]; [|eauto].
  destruct (llm_response_of payload) as [s|e]; cbn [bind]; [|eauto].
  destruct (json_loads s) as [parsed|e] eqn:El; cbn [bind].
  - destruct (fill_required required_fields parsed) as [v|e] eqn:Ef; cbn [bind].
    + right. eauto 6.
    + destruct e; eauto.
  - destruct e; eauto.
Qed.

(** On a value that is no object the validation of the fields either finds
    them all and changes nothing, or raises a [TypeError]. *)
Lemma fill_required_not_object fields v :
  is_object v = false ->
  (holds_all fields v = true /\ fill_required fields v = Ok v)
  \/ (holds_all fields v = false /\ exists msg, fill_required fields v = Raise (TypeError msg)).
Proof.
  intros Hv. induction fields as [|f fields IH]; [by left|].
  cbn [fill_required holds_all forallb].
  destruct (not_in f v) as [[|]|e] eqn:E; cbn [bind].
  - right. split; [done|]. destruct v; try discriminate; simpl; eauto.
  - exact IH.
  - right. split; [done|]. destruct v; try discriminate; simpl in E; injection E as <-; eauto.
Qed.

(** Without a decoded value of the model, the parser answers as the
    deterministic extractor. *)
Lemma no_answer_falls_back json_loads post env now t url model :
  (forall parsed,
     ~ model_answer json_loads (post (request_of env now t url model)) parsed) ->
  exists err,
    parse_incident_structure json_loads post env now t url model
    = _fallback_incident_parsing now t err.
Proof.
  intros Hno. unfold parse_incident_structure, generative_try.
  destruct (post (request_of env now t url model)) as [e|code body] eqn:Ep; [eauto|].
  destruct (code =? 200)%Z eqn:Ec; [|eauto]. apply Z.eqb_eq in Ec. subst code.
  destruct body as [payload|e]; cbn [bind]; [|eauto].
  destruct (llm_response_of payload) as [s|e] eqn:Es; cbn [bind]; [|eauto].
  destruct (json_loads s) as [parsed|e] eqn:El; cbn [bind].
  - exfalso. apply (Hno parsed). by apply (model_answer_decoded _ payload s).
  - destruct e; eauto.
Qed.

Lemma model_answer_parsed json_loads post env now t url model parsed :
  model_answer json_loads (post (request_of env now t url model)) parsed ->
  parse_incident_structure json_loads post env now t url model
  = match fill_required required_fields parsed with
    | Ok v => ParseResult (py "success") v None None
    | Raise (JSONDecodeError _) => _fallback_incident_parsing now t None
    | Raise e => _fallback_incident_parsing now t (Some (exn_str e))
    end.
Proof.
  intros H. unfold parse_incident_structure, generative_try.
  inversion H as [payload s parsed' Hs Hl Ep]; subst.
  rewrite Z.eqb_refl. cbn [bind]. rewrite Hs. cbn [bind]. rewrite Hl. cbn [bind].
  destruct (fill_required required_fields parsed) as [v|e]; cbn [bind]; [done|].
  by destruct e.
Qed.

(** C2, as the code has it: each of the four names is found in the record
    that the parser returns ([in]).  When the service answers with status
    200 and the text of the model decodes to an object, the record is this
    object with "N/A" added under the required keys that were absent, its
    own keys and values being kept as they are.  When the text decodes to a
    value that is no object, this value is the record if each of the four
    names is found in it (a text or a list that holds them); otherwise, as
    on every outcome without a decoded value, the record is that of the
    deterministic extractor: a mapping of exactly the four keys, each value
    a text. *)
Theorem C2_record_shape json_loads post env now t url model :
  let r := parse_incident_structure json_loads post env now t url model in
  let answer := post (request_of env now t url model) in
  (forall f, f ∈ required_fields -> not_in f (incident r) = Ok false)
  /\ (forall obj,
        model_answer json_loads answer (JObj obj) ->
        exists filled,
          r = ParseResult (py "success") (JObj filled) None None
          /\ forall k, filled !! k =
               if bool_decide (k ∈ required_fields)
               then Some (default (JStr (py "N/A")) (obj !! k))
               else obj !! k)
  /\ (forall parsed,
        model_answer json_loads answer parsed -> is_object parsed = false ->
        if holds_all required_fields parsed
        then r = ParseResult (py "success") parsed None None
        else four_texts (incident r)
             /\ exists msg, r = _fallback_incident_parsing now t (Some msg))
  /\ ((forall parsed, ~ model_answer json_loads answer parsed) ->
        four_texts (incident r)
        /\ exists err, r = _fallback_incident_parsing now t err)
  /\ (forall err, generative_failure json_loads answer err -> four_texts (incident r)).
Proof.
  intros r answer.
  assert (forall v, four_texts v ->
            forall f, f ∈ required_fields -> not_in f v = Ok false) as Hfour.
  { intros v (m & -> & Hdom & _) f Hf. rewrite not_in_obj. f_equal.
    apply bool_decide_eq_false. apply not_eq_None_Some, elem_of_dom.
    rewrite Hdom. by apply elem_of_list_to_set. }
  split; [|split; [|split; [|split]]].
  - destruct (parse_incident_structure_cases json_loads post env now t url model)
      as [[err H]|(s & parsed & v & Hl & Hf & H)]; fold r in H; rewrite H.
    + apply Hfour, fallback_four_texts.
    + simpl. by apply (fill_required_has _ _ _ Hf).
  - intros obj Ha. subst r. rewrite (model_answer_parsed _ _ _ _ _ _ _ _ Ha).
    destruct (fill_required_object required_fields obj) as (filled & -> & Hk).
    by exists filled.
  - intros parsed Ha Hobj. subst r. rewrite (model_answer_parsed _ _ _ _ _ _ _ _ Ha).
    destruct (fill_required_not_object required_fields parsed Hobj)
      as [[-> ->]|(-> & msg & ->)]; [done|].
    split; [apply fallback_four_texts|eauto].
  - intros Hno. subst r.
    destruct (no_answer_falls_back json_loads post env now t url model Hno)
      as [err ->].
    split; [apply fallback_four_texts|eauto].
  - intros err H. subst r answer.
    rewrite (generative_failure_falls_back _ _ _ _ _ _ _ _ H).
    apply fallback_four_texts.
Qed.

Lemma C2_witness :
  exists filled,
    parse_incident_structure example_loads (reply_with extra_text) None now0
      (py "Falha ontem") None (py "tinyllama")
    = ParseResult (py "success") (JObj filled) None None
    /\ filled !! py "local" = Some JNull
    /\ filled !! py "severity" = Some (JNum 3)
    /\ filled !! py "impacto" = Some (JStr (py "N/A")).
Proof.
  pose proof (C2_record_shape example_loads (reply_with extra_text) None now0
                (py "Falha ontem") None (py "tinyllama")) as H.
  cbv zeta in H. destruct H as (_ & H & _).
  destruct (H (<[py "local" := JNull]> (<[py "severity" := JNum 3]> ∅)))
    as (filled & Hr & Hk).
  - apply (model_answer_decoded example_loads
             (JObj (<[py "response" := JStr extra_text]> ∅)) extra_text).
    + vm_compute. reflexivity.
    + vm_compute. reflexivity.
  - exists filled. split; [exact Hr|].
    rewrite !Hk. repeat split; vm_compute; reflexivity.
Defined.

(** The claim of C2 fails when the model sends an object with a null
    location and a key of its own: the record keeps both. *)
Lemma C2_counterexample :
  ~ (forall json_loads post env now t url model,
       four_texts
         (incident (parse_incident_structure json_loads post env now t url model))).
Proof.
  intros claim.
  destruct (claim example_loads (reply_with extra_text) None now0 (py "Falha ontem")
              None (py "tinyllama")) as (m & H & _ & Htexts).
  assert (m !! py "local" = Some JNull) as Hl.
  { apply (f_equal (fun j => match j with
                             | JObj m => m !! py "local"
                             | _ => None
                             end)) in H.
    rewrite <- H. vm_compute. reflexivity. }
  destruct (Htexts _ _ Hl) as [s Hs]. discriminate.
Qed.

(** ** The batch endpoint *)

Section Batch.

Variable world : Type.
Variable parser_agent : option (str -> world -> result str * world).
Variable json_loads : str -> result json.
Variable http_exception_str : Z -> str -> str.

Local Abbreviation item := (Main.item_response world parser_agent json_loads http_exception_str).
Local Abbreviation loop := (Main.batch_loop world parser_agent json_loads http_exception_str).
Local Abbreviation at_ := (world_at world parser_agent json_loads http_exception_str).

(** The loop appends one response for each request, in order, each computed
    in the world that the requests before it have left. *)
Lemma batch_loop_spec : forall requests i results w,
  exists outs,
    loop i requests results w = (results ++ outs, at_ (length requests) i requests w)
    /\ length outs = length requests
    /\ forall j request, requests !! j = Some request ->
         outs !! j = Some (item (i + j)%nat request (at_ j i requests w)).1.
Proof using Type.
  induction requests as [|request others IH]; intros i results w.
  - exists []. simpl. rewrite app_nil_r. by repeat split.
  - cbn [Main.batch_loop].
    destruct (item i request w) as [response w'] eqn:E.
    destruct (IH (S i) (results ++ [response]) w') as (outs & Hl & Hlen & Hout).
    exists (response :: outs). split; [|split].
    + rewrite Hl, <- app_assoc. cbn [world_at length]. by rewrite E.
    + simpl. by rewrite Hlen.
    + intros [|j] rq Hj.
      * injection Hj as <-. rewrite Nat.add_0_r. simpl. by rewrite E.
      * simpl in Hj. cbn [world_at]. rewrite E. simpl.
        rewrite (Hout j rq Hj). by rewrite Nat.add_succ_r.
Qed.

End Batch.

(** C8, as the code has it: a batch of more than 100 items is refused before
    any item is processed, with no result; with the agent initialized, a
    batch of at most 100 items gets exactly one response for each request,
    in the order of the requests; while the agent is not initialized, every
    batch is refused with status 500. *)
Theorem C8_batch_cap (world : Type) (agent : str -> world -> result str * world)
  (json_loads : str -> result json) (http_exception_str : Z -> str -> str)
  (requests : list Main.IncidentRequest) (w : world) :
  let run := Main.parse_batch_incidents world (Some agent) json_loads
               http_exception_str requests w in
  (100 < length requests ->
     run = (inl (Main.HTTPException 400 (py "Maximum 100 incidents per batch")), w))%nat
  /\ (length requests <= 100 ->
      exists results,
        run = (inr results,
               world_at world (Some agent) json_loads http_exception_str
                 (length requests) 0 requests w)
        /\ length results = length requests
        /\ forall i request, requests !! i = Some request ->
             results !! i =
               Some (Main.item_response world (Some agent) json_loads
                       http_exception_str i request
                       (world_at world (Some agent) json_loads http_exception_str
                          i 0 requests w)).1)%nat
  /\ Main.parse_batch_incidents world None json_loads http_exception_str requests w
     = (inl (Main.HTTPException 500 (py "Parser agent not initialized")), w).
Proof.
  intros run. subst run. unfold Main.parse_batch_incidents. split; [|split].
  - intros H. apply Nat.ltb_lt in H. by rewrite H.
  - intros H. apply Nat.ltb_ge in H. rewrite H.
    destruct (batch_loop_spec world (Some agent) json_loads http_exception_str
                requests 0%nat [] w) as (outs & Hl & Hlen & Hout).
    exists outs. rewrite Hl. simpl. repeat split; done.
  - done.
Qed.

Lemma C8_witness :
  Main.parse_batch_incidents (list str) (Some logging_agent) example_loads http_str
    (replicate 101 (request_for (py "Falha no servidor"))) []
  = (inl (Main.HTTPException 400 (py "Maximum 100 incidents per batch")), [])
  /\ exists results,
       Main.parse_batch_incidents (list str) (Some logging_agent) example_loads
         http_str [request_for (py "Falha na rede"); request_for (py " ")] []
       = (inr results, [py "Falha na rede"])
       /\ length results = 2%nat.
Proof.
  split.
  - pose proof (C8_batch_cap (list str) logging_agent example_loads http_str
                  (replicate 101 (request_for (py "Falha no servidor"))) []) as H.
    cbv zeta in H. destruct H as (H & _ & _). apply H.
    rewrite length_replicate. lia.
  - pose proof (C8_batch_cap (list str) logging_agent example_loads http_str
                  [request_for (py "Falha na rede"); request_for (py " ")] []) as H.
    cbv zeta in H. destruct H as (_ & H & _).
    assert (length [request_for (py "Falha na rede"); request_for (py " ")] <= 100)%nat
      as Hle by (simpl; lia).
    destruct (H Hle) as (results & Hr & Hlen & _).
    exists results. split; [|exact Hlen].
    rewrite Hr. f_equal; vm_compute; reflexivity.
Defined.

(** The claim of C8 fails while the agent is not initialized: the empty
    batch, of at most 100 items, is refused with status 500. *)
Lemma C8_counterexample :
  ~ (forall world parser_agent json_loads http_exception_str requests (w : world),
       (length requests <= 100)%nat ->
       exists results w',
         Main.parse_batch_incidents world parser_agent json_loads
           http_exception_str requests w = (inr results, w')
         /\ length results = length requests).
Proof.
  intros claim.
  destruct (claim (list str) None example_loads http_str [] [])
    as (results & w' & H & _); [simpl; lia|].
  discriminate.
Qed.

(** ** The normalizer *)

Lemma sep_cls_match k c : sep_cls k = true -> cls_match false k c = true -> is_sep c = true.
Proof.
  unfold is_sep. destruct k as [x| | | | |]; try discriminate; simpl.
  - intros Hx Hc. apply N.eqb_eq in Hc as ->. rewrite orb_true_iff in Hx.
    destruct Hx as [->| ->]; [by rewrite orb_true_r|by rewrite !orb_true_r].
  - by intros _ ->.
Qed.

Lemma word_of_only_seps r : forall w,
  only_seps r = true -> word_of false r w -> Forall (fun c => is_sep c = true) w.
Proof.
  induction r as [|k|a IHa b IHb|a IHa b IHb|a IHa|k lo hi g|n a IHa|];
    intros w Hs Hw; simpl in Hs, Hw.
  - by subst.
  - destruct Hw as (c & -> & Hc). repeat constructor. eapply sep_cls_match; eauto.
  - apply andb_true_iff in Hs as [Ha Hb]. destruct Hw as (u & v & -> & Hu & Hv).
    apply Forall_app. auto.
  - apply andb_true_iff in Hs as [Ha Hb]. destruct Hw; auto.
  - destruct Hw as [Hw| ->]; auto.
  - destruct Hw as (Hw & _). eapply Forall_impl; [exact Hw|].
    intros c Hc. eapply sep_cls_match; eauto.
  - auto.
  - by subst.
Qed.

Lemma word_of_consumes ic r : forall w,
  consumes r = true -> word_of ic r w -> w <> [].
Proof.
  induction r as [|k|a IHa b IHb|a IHa b IHb|a IHa|k lo hi g|n a IHa|];
    intros w Hs Hw; simpl in Hs, Hw; try discriminate.
  - by destruct Hw as (c & -> & _).
  - destruct Hw as (u & v & -> & Hu & Hv). apply orb_true_iff in Hs as [Hs|Hs].
    + specialize (IHa _ Hs Hu). by destruct u.
    + specialize (IHb _ Hs Hv). by destruct u, v.
  - apply andb_true_iff in Hs as [Ha Hb]. destruct Hw; auto.
  - destruct Hw as (_ & Hl & _). destruct lo; [discriminate|]. destruct w; [simpl in Hl; lia|done].
  - auto.
Qed.

(** A match of a separator pattern covers one separator or more, and
    nothing else. *)
Lemma run_separator r sn rs cs st l :
  separator_pattern r = true ->
  run false r (Cursor sn rs, cs) = st :: l ->
  exists c w, rs = c :: w ++ rest st.1
    /\ (length rs - length (rest st.1) = S (length w))%nat
    /\ Forall (fun x => is_sep x = true) (c :: w).
Proof.
  intros Hp Hr. apply andb_true_iff in Hp as [Hs Hc].
  assert (st ∈ run false r (Cursor sn rs, cs)) as Hin by (rewrite Hr; left).
  destruct (run_word _ _ _ _ Hin) as (w & Hw & _ & Hword). simpl in Hw.
  pose proof (word_of_consumes _ _ _ Hc Hword) as Hne.
  pose proof (word_of_only_seps _ _ Hs Hword) as Hsep.
  destruct w as [|c w]; [done|]. exists c, w. split; [done|]. split; [|done].
  rewrite Hw. simpl. rewrite length_app. lia.
Qed.

Lemma count_of_app c s1 s2 : count_of c (s1 ++ s2) = (count_of c s1 + count_of c s2)%nat.
Proof. induction s1 as [|x s1 IH]; simpl; [done|]. rewrite IH. lia. Qed.

Lemma count_of_seps c w :
  is_sep c = false -> Forall (fun x => is_sep x = true) w -> count_of c w = 0%nat.
Proof.
  intros Hc. induction 1 as [|x w Hx _ IH]; simpl; [done|].
  destruct (x =? c) eqn:E; [|exact IH]. apply N.eqb_eq in E as ->. congruence.
Qed.

(** A substitution of separators by separators keeps the number of
    occurrences of any other character. *)
Lemma sub_at_count r repl c :
  separator_pattern r = true -> is_sep c = false -> count_of c repl = 0%nat ->
  forall rs skip sn,
    count_of c (sub_at false r repl skip sn rs) = count_of c (drop skip rs).
Proof.
  intros Hp Hc Hrepl. induction rs as [|c0 tl IH]; intros skip sn.
  - destruct skip as [|k]; cbn [sub_at]; [|done].
    destruct (run false r (Cursor sn [], [])) as [|st l] eqn:E; [done|].
    destruct (run_separator _ _ _ _ _ _ Hp E) as (x & w & Hw & _). discriminate.
  - destruct skip as [|k]; cbn [sub_at].
    + destruct (run false r (Cursor sn (c0 :: tl), [])) as [|st l] eqn:E.
      * cbn [count_of drop]. rewrite IH. by rewrite drop_0.
      * destruct (run_separator _ _ _ _ _ _ Hp E) as (x & w & Hw & Hlen & Hsep).
        rewrite Hlen, count_of_app, Hrepl, IH. injection Hw as <- ->.
        rewrite drop_app_length. rewrite drop_0.
        change (c0 :: w ++ rest st.1) with ((c0 :: w) ++ rest st.1).
        rewrite count_of_app, (count_of_seps c (c0 :: w)) by done. done.
    + rewrite IH. done.
Qed.

Lemma sub_count r repl c s :
  separator_pattern r = true -> is_sep c = false -> count_of c repl = 0%nat ->
  count_of c (sub false r repl s) = count_of c s.
Proof.
  intros. unfold sub. rewrite sub_at_count by done. by rewrite drop_0.
Qed.

Lemma infix_of_app_l v s t : infix_of v s -> infix_of v (s ++ t).
Proof.
  intros (pre & post & ->). exists pre, (post ++ t). by rewrite <- !app_assoc.
Qed.

Lemma infix_of_app_r v s t : infix_of v t -> infix_of v (s ++ t).
Proof.
  intros (pre & post & ->). exists (s ++ pre), post. by rewrite <- !app_assoc.
Qed.

Lemma infix_of_rev v s : infix_of v s -> infix_of (rev v) (rev s).
Proof.
  intros (pre & post & ->). exists (rev post), (rev pre).
  by rewrite !rev_app_distr, <- app_assoc.
Qed.

(** A block without separators does not begin among separators. *)
Lemma infix_of_skip_seps v w t :
  v <> [] -> Forall (fun c => is_sep c = false) v ->
  Forall (fun c => is_sep c = true) w ->
  infix_of v (w ++ t) -> infix_of v t.
Proof.
  intros Hne Hv Hw. induction Hw as [|c w Hc _ IH]; [done|].
  intros (pre & post & H). apply IH. destruct pre as [|c' pre].
  - destruct v as [|a v]; [done|]. simpl in H. injection H as -> _.
    apply Forall_cons in Hv as [Ha _]. congruence.
  - simpl in H. injection H as _ ->. by exists pre, post.
Qed.

Lemma Forall_rev_seps (P : char -> Prop) (w : str) : Forall P w -> Forall P (rev w).
Proof.
  rewrite !Forall_forall. intros H c Hin. apply H.
  apply list_elem_of_In. apply in_rev. by apply list_elem_of_In.
Qed.

Lemma infix_of_skip_seps_end v w t :
  v <> [] -> Forall (fun c => is_sep c = false) v ->
  Forall (fun c => is_sep c = true) w ->
  infix_of v (t ++ w) -> infix_of v t.
Proof.
  intros Hne Hv Hw H. apply infix_of_rev in H. rewrite rev_app_distr in H.
  assert (rev v <> []) as Hne'.
  { intros E. apply Hne. apply (f_equal (@rev _)) in E.
    by rewrite rev_involutive in E. }
  pose proof (infix_of_skip_seps (rev v) (rev w) (rev t) Hne'
                (Forall_rev_seps _ _ Hv) (Forall_rev_seps _ _ Hw) H) as H'.
  apply infix_of_rev in H'. by rewrite !rev_involutive in H'.
Qed.

(** Where the text goes on with a block without separators, the
    substitution copies the block. *)
Lemma sub_at_prefix r repl :
  separator_pattern r = true ->
  forall v sn post,
    Forall (fun c => is_sep c = false) v ->
    exists post', sub_at false r repl 0 sn (v ++ post) = v ++ post'.
Proof.
  intros Hp. induction v as [|a v IH]; intros sn post Hv; [by eexists|].
  apply Forall_cons in Hv as [Ha Hv]. cbn [sub_at app].
  destruct (run false r (Cursor sn (a :: v ++ post), [])) as [|st l] eqn:E.
  - destruct (IH (a :: sn) post Hv) as [post' E']. exists post'. f_equal. exact E'.
  - destruct (run_separator _ _ _ _ _ _ Hp E) as (x & w & Hw & _ & Hsep).
    injection Hw as <- _. apply Forall_cons in Hsep as [Hx _]. congruence.
Qed.

(** A substitution of separators keeps every block without separators. *)
Lemma sub_at_infix r repl v :
  separator_pattern r = true ->
  v <> [] -> Forall (fun c => is_sep c = false) v ->
  forall rs skip sn,
    infix_of v (drop skip rs) -> infix_of v (sub_at false r repl skip sn rs).
Proof.
  intros Hp Hne Hv. induction rs as [|c0 tl IH]; intros skip sn H.
  - rewrite drop_nil in H. destruct H as (pre & post & H).
    destruct pre, v; done.
  - destruct skip as [|k]; [|cbn [sub_at]; by apply IH].
    rewrite drop_0 in H.
    destruct H as (pre & post & H). destruct pre as [|c' pre].
    + destruct (sub_at_prefix r repl Hp v sn post Hv) as [post' E].
      exists [], post'. rewrite H. exact E.
    + simpl in H. injection H as <- Htl.
      assert (infix_of v tl) as Hin by (by exists pre, post).
      cbn [sub_at].
      destruct (run false r (Cursor sn (c0 :: tl), [])) as [|st l] eqn:E.
      * apply (infix_of_app_r v [c0]). apply IH. by rewrite drop_0.
      * destruct (run_separator _ _ _ _ _ _ Hp E) as (x & w & Hw & Hlen & Hsep).
        rewrite Hlen. apply infix_of_app_r, IH.
        injection Hw as _ Hw.
        assert (drop (length w) tl = rest st.1) as ->
          by (rewrite Hw; apply drop_app_length).
        apply Forall_cons in Hsep as [_ Hsep].
        apply (infix_of_skip_seps v w); try done. rewrite Hw in Hin. exact Hin.
Qed.

Lemma sub_infix r repl v s :
  separator_pattern r = true ->
  v <> [] -> Forall (fun c => is_sep c = false) v ->
  infix_of v s -> infix_of v (sub false r repl s).
Proof.
  intros Hp Hne Hv H. unfold sub. apply sub_at_infix; [done|done|done|].
  by rewrite drop_0.
Qed.

Lemma lstrip_split s :
  exists ws, s = ws ++ Str.lstrip s /\ Forall (fun c => is_sep c = true) ws.
Proof.
  induction s as [|c s (ws & Hs & Hw)]; simpl; [by exists []|].
  destruct (isspace c) eqn:E; [|by exists []].
  exists (c :: ws). split; [by rewrite Hs at 1|].
  constructor; [|done]. unfold is_sep. by rewrite E.
Qed.

(** [strip] takes white space off both ends. *)
Lemma strip_split s :
  exists ws1 ws2,
    s = ws1 ++ Str.strip s ++ ws2
    /\ Forall (fun c => is_sep c = true) ws1
    /\ Forall (fun c => is_sep c = true) ws2.
Proof.
  destruct (lstrip_split s) as (ws1 & H1 & Hw1).
  destruct (lstrip_split (rev (Str.lstrip s))) as (ws2 & H2 & Hw2).
  exists ws1, (rev ws2). split; [|split; [done|]].
  - rewrite H1 at 1. f_equal. unfold Str.strip, Str.rstrip.
    rewrite <- rev_app_distr, <- H2. by rewrite rev_involutive.
  - by apply Forall_rev_seps.
Qed.

Lemma separator_patterns :
  separator_pattern spaces_pattern = true
  /\ separator_pattern comma_pattern = true
  /\ separator_pattern period_pattern = true.
Proof. repeat split; vm_compute; reflexivity. Qed.

Lemma replacements_seps :
  Forall (fun c => is_sep c = true) (py " ")
  /\ Forall (fun c => is_sep c = true) (py ", ")
  /\ Forall (fun c => is_sep c = true) (py ". ")
  /\ Forall (fun c => is_sep c = true) (py ".").
Proof.
  replace (py " ") with [32] by (vm_compute; reflexivity).
  replace (py ", ") with [44; 32] by (vm_compute; reflexivity).
  replace (py ". ") with [46; 32] by (vm_compute; reflexivity).
  replace (py ".") with [46] by (vm_compute; reflexivity).
  repeat split; repeat constructor.
Qed.

(** The cleaning keeps the number of occurrences of every character that is
    no separator. *)
Lemma basic_text_cleaning_count c s :
  is_sep c = false -> count_of c (_basic_text_cleaning s) = count_of c s.
Proof.
  intros Hc. destruct separator_patterns as (P1 & P2 & P3).
  destruct replacements_seps as (R1 & R2 & R3 & R4).
  assert (count_of c
            (sub false period_pattern (py ". ")
               (sub false comma_pattern (py ", ")
                  (sub false spaces_pattern (py " ") (Str.strip s))))
          = count_of c s) as H.
  { rewrite !sub_count by (try done; by apply count_of_seps).
    destruct (strip_split s) as (ws1 & ws2 & Hs & H1 & H2).
    rewrite Hs at 2. rewrite !count_of_app.
    rewrite (count_of_seps c ws1), (count_of_seps c ws2) by done. lia. }
  unfold _basic_text_cleaning. cbv zeta.
  destruct (negb _); [|done].
  rewrite count_of_app, H, (count_of_seps c (py ".")) by done. lia.
Qed.

(** The cleaning keeps every block without separators. *)
Lemma basic_text_cleaning_infix v s :
  v <> [] -> Forall (fun c => is_sep c = false) v ->
  infix_of v s -> infix_of v (_basic_text_cleaning s).
Proof.
  intros Hne Hv H. destruct separator_patterns as (P1 & P2 & P3).
  assert (infix_of v
            (sub false period_pattern (py ". ")
               (sub false comma_pattern (py ", ")
                  (sub false spaces_pattern (py " ") (Str.strip s))))) as H'.
  { do 3 (apply sub_infix; try done).
    destruct (strip_split s) as (ws1 & ws2 & Hs & H1 & H2).
    rewrite Hs in H. apply infix_of_skip_seps in H; try done.
    by apply infix_of_skip_seps_end in H. }
  unfold _basic_text_cleaning. cbv zeta.
  destruct (negb _); [by apply infix_of_app_l|done].
Qed.


Lemma tolower_sep c : is_sep c = true -> tolower c = c.
Proof.
  unfold is_sep, isspace, tolower, in_range. intros H.
  destruct ((65 <=? c) && (c <=? 90)) eqn:E1.
  { apply andb_true_iff in E1 as [A B]. apply N.leb_le in A, B.
    repeat (apply orb_true_iff in H as [H|H]);
      repeat (apply andb_true_iff in H as [H ?]);
      repeat match goal with
             | X : (_ <=? _) = true |- _ => apply N.leb_le in X
             | X : (_ =? _) = true |- _ => apply N.eqb_eq in X
             end; lia. }
  destruct ((192 <=? c) && (c <=? 222) && negb (c =? 215)) eqn:E2.
  { apply andb_true_iff in E2 as [E2 _]. apply andb_true_iff in E2 as [A B].
    apply N.leb_le in A, B.
    repeat (apply orb_true_iff in H as [H|H]);
      repeat (apply andb_true_iff in H as [H ?]);
      repeat match goal with
             | X : (_ <=? _) = true |- _ => apply N.leb_le in X
             | X : (_ =? _) = true |- _ => apply N.eqb_eq in X
             end; lia. }
  destruct (c =? 376) eqn:E3; [|done].
  apply N.eqb_eq in E3.
  repeat (apply orb_true_iff in H as [H|H]);
    repeat (apply andb_true_iff in H as [H ?]);
    repeat match goal with
           | X : (_ <=? _) = true |- _ => apply N.leb_le in X
           | X : (_ =? _) = true |- _ => apply N.eqb_eq in X
           end; lia.
Qed.

(** A block of the text in lower case comes from a block of the text. *)
Lemma infix_of_lower w s :
  infix_of w (Str.lower s) -> exists v, infix_of v s /\ Str.lower v = w.
Proof.
  unfold Str.lower. intros (pre & post & H).
  apply map_eq_app in H as (s1 & s23 & -> & <- & H).
  apply map_eq_app in H as (s2 & s3 & -> & <- & <-).
  exists s2. split; [by exists s1, s3|done].
Qed.

Lemma lower_infix_of v s : infix_of v s -> infix_of (Str.lower v) (Str.lower s).
Proof.
  intros (pre & post & ->). exists (Str.lower pre), (Str.lower post).
  unfold Str.lower. by rewrite !map_app.
Qed.

Lemma relative_words_no_sep :
  Forall (fun word => word <> [] /\ Forall (fun c => is_sep c = false) word)
    relative_date_words.
Proof.
  unfold relative_date_words.
  replace (py "ontem") with [111; 110; 116; 101; 109] by (vm_compute; reflexivity).
  replace (py "hoje") with [104; 111; 106; 101] by (vm_compute; reflexivity).
  replace (py "anteontem") with [97; 110; 116; 101; 111; 110; 116; 101; 109]
    by (vm_compute; reflexivity).
  repeat constructor; done.
Qed.

Lemma has_relative_word_iff s :
  has_relative_word s = true <->
  exists word, word ∈ relative_date_words /\ infix_of word (Str.lower s).
Proof.
  unfold has_relative_word. rewrite existsb_exists. split.
  - intros (word & Hin & H). exists word. split; [by apply list_elem_of_In|].
    by apply contains_iff.
  - intros (word & Hin & H). exists word. split; [by apply list_elem_of_In|].
    by apply contains_iff.
Qed.

Lemma has_relative_word_app s t :
  has_relative_word s = true -> has_relative_word (s ++ t) = true.
Proof.
  rewrite !has_relative_word_iff. intros (word & Hin & H). exists word.
  split; [done|]. unfold Str.lower. rewrite map_app. by apply infix_of_app_l.
Qed.

(** The cleaning keeps the relative date words of a text. *)
Lemma basic_text_cleaning_relative s :
  has_relative_word s = true -> has_relative_word (_basic_text_cleaning s) = true.
Proof.
  rewrite !has_relative_word_iff. intros (word & Hin & H). exists word.
  split; [done|].
  destruct (infix_of_lower _ _ H) as (v & Hv & Hl).
  pose proof relative_words_no_sep as Hw. rewrite Forall_forall in Hw.
  destruct (Hw _ Hin) as [Hne Hsep].
  rewrite <- Hl. apply lower_infix_of, basic_text_cleaning_infix; [| |done].
  - intros ->. by subst word.
  - subst word. unfold Str.lower in Hsep.
    apply Forall_forall. intros c Hc.
    rewrite Forall_forall in Hsep.
    destruct (is_sep c) eqn:E; [|done].
    rewrite <- (Hsep (tolower c)).
    + by rewrite (tolower_sep c E).
    + apply list_elem_of_In. apply in_map. by apply list_elem_of_In.
Qed.

Lemma add_date_reference_relative now s :
  has_relative_word s = true ->
  _add_date_reference now s = s ++ py " [Referência: " ++ strftime_date now ++ py "]".
Proof.
  intros H. unfold _add_date_reference. unfold has_relative_word in H. by rewrite H.
Qed.

Lemma add_missing_time_context_placeholder s :
  _add_missing_time_context s = s ++ time_placeholder s.
Proof.
  unfold _add_missing_time_context, time_placeholder, has_relative_date,
    has_time_info. cbv zeta.
  destruct (_ && _); [done|by rewrite app_nil_r].
Qed.

(** On a text with a relative date word, a pass of the normalizer returns
    the cleaned text, the placeholder of the time where it applies, and the
    reference annotation; the result has the word still, and one opening
    bracket more than the text. *)
Lemma preprocess_shape now s :
  has_relative_word s = true ->
  preprocess_incident_text now s
  = _basic_text_cleaning s ++ time_placeholder (_basic_text_cleaning s)
    ++ reference now
  /\ has_relative_word (preprocess_incident_text now s) = true
  /\ count_of 91%N (preprocess_incident_text now s) = S (count_of 91%N s).
Proof.
  intros H. apply basic_text_cleaning_relative in H.
  pose proof (basic_text_cleaning_count 91 s eq_refl) as Hc.
  unfold preprocess_incident_text. cbv zeta.
  set (c := _basic_text_cleaning s) in *.
  rewrite add_missing_time_context_placeholder.
  assert (has_relative_word (c ++ time_placeholder c) = true) as Hu
    by by apply has_relative_word_app.
  rewrite (add_date_reference_relative now _ Hu). fold (reference now).
  split; [by rewrite <- app_assoc|]. split; [by apply has_relative_word_app|].
  rewrite !count_of_app, Hc.
  assert (count_of 91 (time_placeholder c) = 0%nat) as ->.
  { unfold time_placeholder. destruct (_ && _); [|done]. vm_compute. reflexivity. }
  unfold reference. rewrite !count_of_app.
  replace (count_of 91 (py " [Referência: ")) with 1%nat by (vm_compute; reflexivity).
  replace (count_of 91 (py "]")) with 0%nat by (vm_compute; reflexivity).
  assert (count_of 91 (strftime_date now) = 0%nat) as ->; [|lia].
  unfold strftime_date. rewrite !count_of_app.
  replace (count_of 91 (py "-")) with 0%nat by (vm_compute; reflexivity).
  assert (forall w n, count_of 91 (Str.pad w n) = 0%nat) as Hpad; [|by rewrite !Hpad].
  intros w n. unfold Str.pad. rewrite count_of_app.
  assert (count_of 91 (replicate (w - length (Str.digits_of (S (N.size_nat n)) n [])) 48)
          = 0%nat) as ->.
  { induction (w - length _)%nat as [|k IH]; [done|]. simpl. exact IH. }
  assert (forall fuel m acc, count_of 91 acc = 0%nat ->
            count_of 91 (Str.digits_of fuel m acc) = 0%nat) as Hd; [|by apply Hd].
  induction fuel as [|fuel IH]; intros m acc Hacc; [done|]. cbn [Str.digits_of].
  assert (count_of 91 ((48 + m mod 10) :: acc) = 0%nat) as Hacc'.
  { cbn [count_of]. rewrite Hacc.
    replace (48 + m mod 10 =? 91) with false; [done|].
    symmetry. apply N.eqb_neq. pose proof (N.mod_upper_bound m 10). lia. }
  destruct (m <? 10); [exact Hacc'|by apply IH].
Qed.

(** C5, as the code has it: the normalizer is not idempotent.  On every
    text with a relative date word (ontem, hoje, anteontem, in any case, also
    inside a longer word), a pass returns the cleaned text, followed by the
    placeholder of the time exactly when the cleaned text has such a word as
    a whole word and none of the time indicators, and by the reference
    annotation.  The result has the word still, so a second pass appends a
    further annotation: its result has one opening bracket more and is never
    the result of the first. *)
Theorem C5_normalizer_appends (now1 now2 : datetime) (t : str) :
  has_relative_word t = true ->
  let once := preprocess_incident_text now1 t in
  let twice := preprocess_incident_text now2 once in
  once = _basic_text_cleaning t ++ time_placeholder (_basic_text_cleaning t)
         ++ py " [Referência: " ++ strftime_date now1 ++ py "]"
  /\ has_relative_word once = true
  /\ twice = _basic_text_cleaning once ++ time_placeholder (_basic_text_cleaning once)
             ++ py " [Referência: " ++ strftime_date now2 ++ py "]"
  /\ count_of 91%N once = S (count_of 91%N t)
  /\ count_of 91%N twice = S (S (count_of 91%N t))
  /\ twice <> once.
Proof.
  intros H once twice.
  destruct (preprocess_shape now1 t H) as (Hs1 & Hr & Hc1). fold once in Hs1, Hr, Hc1.
  destruct (preprocess_shape now2 once Hr) as (Hs2 & _ & Hc2). fold twice in Hs2, Hc2.
  split; [exact Hs1|]. split; [exact Hr|]. split; [exact Hs2|].
  split; [exact Hc1|]. split; [by rewrite Hc2, Hc1|].
  intros E. rewrite E, Hc1 in Hc2. lia.
Qed.

Lemma C5_witness :
  preprocess_incident_text now0 (preprocess_incident_text now0 (py "Falha ontem"))
  <> preprocess_incident_text now0 (py "Falha ontem").
Proof.
  pose proof (C5_normalizer_appends now0 now0 (py "Falha ontem")) as H.
  cbv zeta in H. apply H. vm_compute. reflexivity.
Defined.

(** The claim of C5 fails on "Falha ontem": the second pass appends the
    placeholder of the time and the reference annotation again. *)
Lemma C5_counterexample :
  ~ (forall now t,
       preprocess_incident_text now (preprocess_incident_text now t)
       = preprocess_incident_text now t).
Proof.
  intros claim. pose proof (claim now0 (py "Falha ontem")) as H.
  apply (f_equal length) in H. vm_compute in H. discriminate.
Qed.

Example normalizer_passes :
  preprocess_incident_text now0 (py "Falha  ontem ,no servidor")
  = py "Falha ontem, no servidor. (horário não especificado) [Referência: 2025-09-07]"
  /\ preprocess_incident_text now0 (py "a") = py "a."
  /\ preprocess_incident_text now0 (py "a.") = py "a. .".
Proof. repeat split; vm_compute; reflexivity. Qed.

(** ** What the field extractors return *)

Lemma word_of_avoids ic c0 r : forall w,
  avoids ic c0 r = true -> word_of ic r w -> c0 ∉ w.
Proof.
  induction r as [|k|a IHa b IHb|a IHa b IHb|a IHa|k lo hi g|n a IHa|];
    intros w Ha Hw; simpl in Ha, Hw.
  - subst. apply not_elem_of_nil.
  - destruct Hw as (c & -> & Hc). intros Hin. apply list_elem_of_singleton in Hin as ->.
    rewrite Hc in Ha. discriminate.
  - apply andb_true_iff in Ha as [H1 H2]. destruct Hw as (u & v & -> & Hu & Hv).
    rewrite elem_of_app. intros [?|?]; [by eapply IHa|by eapply IHb].
  - apply andb_true_iff in Ha as [H1 H2]. destruct Hw; eauto.
  - destruct Hw as [Hw| ->]; [eauto|apply not_elem_of_nil].
  - destruct Hw as (Hw & _). intros Hin. rewrite Forall_forall in Hw.
    rewrite (Hw _ Hin) in Ha. discriminate.
  - eauto.
  - subst. apply not_elem_of_nil.
Qed.

Lemma group_word_avoids ic c0 n r : forall w,
  group_avoids ic c0 n r = true -> group_word ic n r w -> c0 ∉ w.
Proof.
  induction r as [|k|a IHa b IHb|a IHa b IHb|a IHa|k lo hi g|k a IHa|];
    intros w Ha Hw; simpl in Ha, Hw; try contradiction.
  - apply andb_true_iff in Ha as [H1 H2]. destruct Hw; eauto.
  - apply andb_true_iff in Ha as [H1 H2]. destruct Hw; eauto.
  - eauto.
  - apply andb_true_iff in Ha as [H1 H2]. destruct Hw as [[-> Hw]|Hw]; [|eauto].
    rewrite Nat.eqb_refl in H1. eapply word_of_avoids; eauto.
Qed.

(** The first group of a match avoids what its pattern makes it avoid. *)
Lemma first_group_avoids c0 p t m :
  field_pattern_ok p = true -> group_avoids true c0 1 p = true ->
  search true p t = Some m -> c0 ∉ first_group m.
Proof.
  intros Hp Ha E. destruct (group_text_first true p t m Hp E) as [G _].
  apply andb_true_iff in Hp as [Hn _]. apply Nat.leb_le in Hn.
  destruct (search_optional_group _ _ _ _ 1 E) as [G'|(w & G' & Hw)]; [lia| |].
  - rewrite G in G'. discriminate.
  - rewrite G in G'. injection G' as ->. eapply group_word_avoids; eauto.
Qed.

Lemma strip_elem c s : c ∈ Str.strip s -> c ∈ s.
Proof.
  intros H. destruct (strip_split s) as (ws1 & ws2 & Hs & _). rewrite Hs.
  rewrite !elem_of_app. auto.
Qed.

Lemma toupper_comma_period c : toupper c = 44 \/ toupper c = 46 -> c = 44 \/ c = 46.
Proof.
  unfold toupper, in_range.
  destruct ((97 <=? c) && (c <=? 122)) eqn:E1.
  { apply andb_true_iff in E1 as [A B]. apply N.leb_le in A, B. lia. }
  destruct ((224 <=? c) && (c <=? 254) && negb (c =? 247)) eqn:E2.
  { apply andb_true_iff in E2 as [E2 _]. apply andb_true_iff in E2 as [A B].
    apply N.leb_le in A, B. lia. }
  destruct (c =? 255) eqn:E3; [lia|done].
Qed.

Lemma tolower_comma_period c : tolower c = 44 \/ tolower c = 46 -> c = 44 \/ c = 46.
Proof.
  unfold tolower, in_range.
  destruct ((65 <=? c) && (c <=? 90)) eqn:E1.
  { apply andb_true_iff in E1 as [A B]. apply N.leb_le in A, B. lia. }
  destruct ((192 <=? c) && (c <=? 222) && negb (c =? 215)) eqn:E2.
  { apply andb_true_iff in E2 as [E2 _]. apply andb_true_iff in E2 as [A B].
    apply N.leb_le in A, B. lia. }
  destruct (c =? 376) eqn:E3; [lia|done].
Qed.

Lemma lower_no_comma_period s : no_comma_period s -> no_comma_period (Str.lower s).
Proof.
  unfold no_comma_period, Str.lower. intros [H1 H2].
  split; intros Hin; apply list_elem_of_In, in_map_iff in Hin as (c & Hc & Hin);
    apply list_elem_of_In in Hin;
    destruct (tolower_comma_period c) as [-> | ->]; auto.
Qed.

Lemma capitalize_no_comma_period s :
  no_comma_period s -> no_comma_period (Str.capitalize s).
Proof.
  destruct s as [|c tl]; [done|]. intros [H1 H2]. unfold Str.capitalize.
  apply not_elem_of_cons in H1 as [Hc1 H1]. apply not_elem_of_cons in H2 as [Hc2 H2].
  destruct (lower_no_comma_period tl) as [L1 L2]; [done|].
  assert (no_comma_period
            (if c =? 223 then [83; 115] else if c =? 181 then [924] else [toupper c]))
    as [F1 F2].
  { destruct (c =? 223); [|destruct (c =? 181)].
    - split; intros H; repeat (apply elem_of_cons in H as [H|H]; [done|]);
        by apply elem_of_nil in H.
    - split; intros H; repeat (apply elem_of_cons in H as [H|H]; [done|]);
        by apply elem_of_nil in H.
    - split; intros H; apply list_elem_of_singleton in H;
        destruct (toupper_comma_period c) as [?|?]; auto. }
  split; rewrite elem_of_app; intros [?|?]; done.
Qed.

Lemma patterns_avoid_comma_period :
  forallb (fun p => group_avoids true 44 1 p && group_avoids true 46 1 p)
    (location_patterns ++ type_patterns ++ impact_patterns) = true.
Proof. vm_compute. reflexivity. Qed.

Lemma first_found_no_comma_period ps t p m :
  forallb field_pattern_ok ps = true ->
  forallb (fun p => group_avoids true 44 1 p && group_avoids true 46 1 p) ps = true ->
  first_found ps t = Some (p, m) ->
  no_comma_period (Str.strip (first_group m)).
Proof.
  intros Hok Hav H.
  destruct (first_found_some _ _ _ _ H) as (before & after & Hl & _ & Hs).
  rewrite forallb_forall in Hok, Hav.
  assert (In p ps) as Hin by (rewrite Hl; apply in_or_app; right; by left).
  specialize (Hok _ Hin). specialize (Hav _ Hin).
  apply andb_true_iff in Hav as [A1 A2].
  split; intros Hc; apply strip_elem in Hc;
    by eapply first_group_avoids in Hc.
Qed.

Lemma no_comma_period_check s :
  forallb (fun c => negb (c =? 44) && negb (c =? 46)) s = true -> no_comma_period s.
Proof.
  rewrite forallb_forall. intros H.
  split; intros Hin; apply list_elem_of_In in Hin; specialize (H _ Hin); done.
Qed.

Lemma location_patterns_field_ok : forallb field_pattern_ok location_patterns = true.
Proof. vm_compute. reflexivity. Qed.

Lemma patterns_avoid_app ps qs :
  forallb (fun p => group_avoids true 44 1 p && group_avoids true 46 1 p) (ps ++ qs)
    = true ->
  forallb (fun p => group_avoids true 44 1 p && group_avoids true 46 1 p) ps = true
  /\ forallb (fun p => group_avoids true 44 1 p && group_avoids true 46 1 p) qs = true.
Proof. rewrite forallb_app. apply andb_true_iff. Qed.

(** X1: the location that the extraction returns, taken from the text or
    the sentinel, holds no comma and no period. *)
Theorem extracted_location_no_comma_period (t : str) :
  exists v, _extract_location t = Ok v /\ no_comma_period v.
Proof.
  unfold _extract_location. rewrite (location_loop_spec _ _ location_patterns_ok).
  destruct (first_found location_patterns t) as [[p m]|] eqn:E.
  - eexists. split; [done|].
    destruct (patterns_avoid_app _ _ patterns_avoid_comma_period) as [A _].
    exact (first_found_no_comma_period _ _ _ _ location_patterns_field_ok A E).
  - eexists. split; [done|]. apply no_comma_period_check. vm_compute. reflexivity.
Qed.

(** X2: the incident type is the first group of the first of the five
    patterns (falha, erro, problema, interrupção, pane, in this order) found
    in the text, trimmed and capitalised, wherever the matches stand in the
    text; without one it is the sentinel.  Either way it holds no comma and
    no period. *)
Theorem extracted_type_first_pattern (t : str) :
  _extract_incident_type t =
    match first_found type_patterns t with
    | None => Ok (py "Incidente não especificado")
    | Some (p, m) => Ok (Str.capitalize (Str.strip (first_group m)))
    end
  /\ (forall p m, first_found type_patterns t = Some (p, m) ->
        exists before after,
          type_patterns = before ++ p :: after
          /\ Forall (fun q => search true q t = None) before
          /\ search true p t = Some m)
  /\ (exists v, _extract_incident_type t = Ok v /\ no_comma_period v).
Proof.
  assert (_extract_incident_type t =
    match first_found type_patterns t with
    | None => Ok (py "Incidente não especificado")
    | Some (p, m) => Ok (Str.capitalize (Str.strip (first_group m)))
    end) as Heq by apply type_loop_spec, type_patterns_ok.
  split; [exact Heq|]. split; [intros p m H; by apply first_found_some|].
  rewrite Heq. destruct (first_found type_patterns t) as [[p m]|] eqn:E.
  - eexists. split; [done|]. apply capitalize_no_comma_period.
    destruct (patterns_avoid_app _ _ patterns_avoid_comma_period) as [_ A].
    destruct (patterns_avoid_app _ _ A) as [A' _].
    exact (first_found_no_comma_period _ _ _ _ type_patterns_ok A' E).
  - eexists. split; [done|]. apply no_comma_period_check. vm_compute. reflexivity.
Qed.

(** X3: the impact is the trimmed first group of the first impact pattern
    found in the text, in the declared order, and then it holds no comma and
    no period; with no pattern found it is the text itself, cut after 100
    characters and followed by three dots when it is longer. *)
Theorem extracted_impact_first_pattern (t : str) :
  _extract_impact t =
    match first_found impact_patterns t with
    | None => Ok (if (100 <? length t)%nat then take 100 t ++ py "..." else t)
    | Some (p, m) => Ok (Str.strip (first_group m))
    end
  /\ (forall p m, first_found impact_patterns t = Some (p, m) ->
        no_comma_period (Str.strip (first_group m))
        /\ exists before after,
             impact_patterns = before ++ p :: after
             /\ Forall (fun q => search true q t = None) before
             /\ search true p t = Some m).
Proof.
  split; [apply impact_loop_spec, impact_patterns_ok|].
  intros p m E. split; [|by apply first_found_some].
  destruct (patterns_avoid_app _ _ patterns_avoid_comma_period) as [_ A].
  destruct (patterns_avoid_app _ _ A) as [_ A'].
  exact (first_found_no_comma_period _ _ _ _ impact_patterns_ok A' E).
Qed.

(** ** The shape of the extracted date *)













(** ** What makes the parser answer with an error, and what does not *)

(** X5: with the clock past the first year of the calendar, where taking a
    day off cannot overflow, the parser answers with the status "success" or
    "error", and with "error" only for a text whose first time of the day
    found has an hour above 23 or a minute above 59; then the result has a
    message and no method.  A text whose time is in range, or that has
    none, never gives an error, whatever the generative service does. *)
Theorem parser_status_error_only_on_time json_loads post env now t url model :
  2 <= year now ->
  let r := parse_incident_structure json_loads post env now t url model in
  exists h mi,
    matched_time time_patterns (Str.lower t) = Ok (h, mi)
    /\ (status r = py "success" \/ status r = py "error")
    /\ (status r = py "error" ->
          (23 < h \/ 59 < mi) /\ method r = None
          /\ exists msg, message r = Some (py "Parsing failed: " ++ msg))
    /\ (h <= 23 /\ mi <= 59 -> status r = py "success").
Proof.
  intros Hy r.
  destruct (matched_time_total time_patterns (Str.lower t) time_patterns_ok)
    as (h & mi & Hm).
  exists h, mi. split; [exact Hm|].
  assert (exists tg, target_date now (Str.lower t) = Ok tg) as [tg Ht].
  { destruct (overflows_cases now t) as [[Ho _]|[_ Ht]]; [|eauto].
    unfold overflows, first_day in Ho.
    replace (year now <=? 1) with false in Ho by (symmetry; apply N.leb_gt; lia).
    rewrite andb_false_r in Ho. discriminate. }
  pose proof (extract_date_info_cases now t tg h mi Ht Hm) as Hd.
  assert (py "success" <> py "error") as Hne by (vm_compute; discriminate).
  assert (forall err,
    let f := _fallback_incident_parsing now t err in
    (status f = py "success" /\ h <= 23 /\ mi <= 59)
    \/ (status f = py "error" /\ (23 < h \/ 59 < mi) /\ method f = None
        /\ exists msg, message f = Some (py "Parsing failed: " ++ msg))) as Hf.
  { intros err f. subst f. unfold _fallback_incident_parsing.
    destruct (fallback_try_date now t) as [Fok Ferr].
    destruct (23 <? h) eqn:Eh.
    { rewrite (Ferr _ Hd). right. apply N.ltb_lt in Eh. simpl. eauto 6. }
    destruct (59 <? mi) eqn:Emi.
    { rewrite (Ferr _ Hd). right. apply N.ltb_lt in Emi. simpl. eauto 6. }
    destruct (Fok _ Hd) as (l & ty & im & ->). left. apply N.ltb_ge in Eh, Emi.
    by repeat split. }
  destruct (parse_incident_structure_cases json_loads post env now t url model)
    as [[err Hr]|(s & parsed & v & _ & _ & Hr)]; fold r in Hr; rewrite Hr.
  - destruct (Hf err) as [(Hs & Hh & Hmi)|(Hs & Hbad & Hmeth & Hmsg)].
    + split; [by left|]. split; [|done]. intros E. rewrite Hs in E. done.
    + split; [by right|]. split; [done|]. intros [? ?]. lia.
  - simpl. split; [by left|]. split; [|done]. intros E. done.
Qed.

Lemma parser_status_error_only_on_time_witness :
  status (parse_incident_structure example_loads unreachable None now0
            (py "Falha no servidor, ontem às 14h") None (py "tinyllama"))
  = py "success".
Proof.
  pose proof (parser_status_error_only_on_time example_loads unreachable None now0
                (py "Falha no servidor, ontem às 14h") None (py "tinyllama")) as H.
  cbv zeta in H. destruct H as (h & mi & Hm & _ & _ & Hok).
  - vm_compute. discriminate.
  - apply Hok.
    assert (matched_time time_patterns
              (Str.lower (py "Falha no servidor, ontem às 14h")) = Ok (14, 0)) as E
      by (vm_compute; reflexivity).
    rewrite E in Hm. injection Hm as <- <-. split; vm_compute; discriminate.
Defined.

(** X6: an answer of the service with status 200 whose body is no object,
    whose [response] is no text, or whose text decodes to a value that is no
    object and lacks a required field (null, a boolean, a number, a text or
    a list without one of the four names), is no success of the generative
    path: the exception is caught
    and the parser returns what the deterministic extractor returns with the
    text of that exception, so the same status, record and method as the
    extractor alone. *)
Theorem malformed_answer_falls_back json_loads post env now t url model payload :
  post (request_of env now t url model) = Response 200 (Ok payload) ->
  malformed_answer json_loads payload ->
  let r := parse_incident_structure json_loads post env now t url model in
  let alone := _fallback_incident_parsing now t None in
  (exists msg, r = _fallback_incident_parsing now t (Some msg))
  /\ status r = status alone /\ incident r = incident alone
  /\ method r = method alone.
Proof.
  intros Hp Hm r alone.
  assert (exists msg, r = _fallback_incident_parsing now t (Some msg)) as [msg He].
  { subst r. unfold parse_incident_structure, generative_try. rewrite Hp.
    rewrite Z.eqb_refl. cbn [bind].
    destruct Hm as [payload Hno|m v Hv Hno|payload s v Hs Hl Hv Hall].
    - destruct payload; try contradiction; simpl; eauto.
    - unfold llm_response_of. rewrite Hv. simpl.
      destruct v; try contradiction; simpl; eauto.
    - rewrite Hs. cbn [bind]. rewrite Hl. cbn [bind].
      destruct (fill_required_not_object required_fields v Hv)
        as [[Hall' _]|(_ & msg & ->)]; [congruence|]. cbn [bind]. eauto. }
  split; [eauto|]. rewrite He.
  destruct (fallback_error_only_message now t (Some msg)) as (H1 & H2 & H3 & _).
  done.
Qed.

Lemma malformed_answer_falls_back_witness :
  status (parse_incident_structure example_loads reply_list None now0
            (py "Falha no servidor, ontem às 14h") None (py "tinyllama"))
  = status (_fallback_incident_parsing now0 (py "Falha no servidor, ontem às 14h") None).
Proof.
  refine (proj1 (proj2
    (malformed_answer_falls_back example_loads reply_list None now0
       (py "Falha no servidor, ontem às 14h") None (py "tinyllama") (JArr [])
       eq_refl _))).
  by apply body_not_object.
Defined.

(** ** What the cleaning of the text keeps, and its final period *)

Lemma letters_app s1 s2 : letters (s1 ++ s2) = letters s1 ++ letters s2.
Proof. apply List.filter_app. Qed.

Lemma letters_seps w : Forall (fun x => is_sep x = true) w -> letters w = [].
Proof.
  induction 1 as [|x w Hx _ IH]; [done|]. simpl. by rewrite Hx.
Qed.

(** A substitution of separators by separators keeps the other characters,
    in their order. *)
Lemma sub_at_letters r repl :
  separator_pattern r = true -> letters repl = [] ->
  forall rs skip sn,
    letters (sub_at false r repl skip sn rs) = letters (drop skip rs).
Proof.
  intros Hp Hrepl. induction rs as [|c0 tl IH]; intros skip sn.
  - destruct skip as [|k]; cbn [sub_at]; [|done].
    destruct (run false r (Cursor sn [], [])) as [|st l] eqn:E; [done|].
    destruct (run_separator _ _ _ _ _ _ Hp E) as (x & w & Hw & _). discriminate.
  - destruct skip as [|k]; cbn [sub_at].
    + destruct (run false r (Cursor sn (c0 :: tl), [])) as [|st l] eqn:E.
      * rewrite drop_0. change (c0 :: sub_at false r repl 0 (c0 :: sn) tl)
          with ([c0] ++ sub_at false r repl 0 (c0 :: sn) tl).
        change (c0 :: tl) with ([c0] ++ tl).
        rewrite !letters_app, IH. by rewrite drop_0.
      * destruct (run_separator _ _ _ _ _ _ Hp E) as (x & w & Hw & Hlen & Hsep).
        rewrite Hlen, letters_app, Hrepl, IH. injection Hw as <- ->.
        rewrite drop_app_length. rewrite drop_0.
        change (c0 :: w ++ rest st.1) with ((c0 :: w) ++ rest st.1).
        rewrite letters_app, (letters_seps (c0 :: w)) by done. done.
    + rewrite IH. done.
Qed.

Lemma sub_letters r repl s :
  separator_pattern r = true -> letters repl = [] ->
  letters (sub false r repl s) = letters s.
Proof.
  intros. unfold sub. rewrite sub_at_letters by done. by rewrite drop_0.
Qed.

(** Where the text goes on with a period, the pattern of the periods
    matches. *)
Lemma run_period_pattern sn tl cs :
  run false period_pattern (Cursor sn (46 :: tl), cs) <> [].
Proof.
  unfold period_pattern, star. cbn [seqs run]. cbn [rest fst snd span cls_match].
  replace (isspace 46) with false by (vm_compute; reflexivity).
  cbn. rewrite !app_nil_r, fmap_app. intros H.
  apply app_eq_nil in H as [_ H]. discriminate.
Qed.

Lemma periods_spaced_cons c o :
  c <> 46 -> periods_spaced (c :: o) = periods_spaced o.
Proof. intros H. simpl. apply N.eqb_neq in H. by rewrite H. Qed.

(** After the substitution of the periods, every period is followed by a
    space. *)
Lemma sub_at_periods_spaced : forall rs skip sn,
  periods_spaced (sub_at false period_pattern [46; 32] skip sn rs) = true.
Proof.
  induction rs as [|c0 tl IH]; intros skip sn.
  - destruct skip as [|k]; cbn [sub_at]; [|done].
    destruct (run false period_pattern (Cursor sn [], [])) as [|st l]; done.
  - destruct skip as [|k]; cbn [sub_at]; [|apply IH].
    destruct (run false period_pattern (Cursor sn (c0 :: tl), [])) as [|st l] eqn:E.
    + rewrite periods_spaced_cons; [apply IH|].
      intros ->. by apply run_period_pattern in E.
    + destruct (run_separator _ _ _ _ _ _ (proj2 (proj2 separator_patterns)) E)
        as (x & w & Hw & Hlen & Hsep).
      rewrite Hlen. change ([46; 32] ++ ?o) with (46 :: 32 :: o).
      cbn [periods_spaced]. rewrite N.eqb_refl. cbn [andb].
      change (32 =? 46) with false. cbn [andb]. apply IH.
Qed.

Lemma periods_spaced_last o : periods_spaced o = true -> last o <> Some 46.
Proof.
  induction o as [|c o IH]; [done|]. cbn [periods_spaced].
  intros H. apply andb_true_iff in H as [Hc Ho].
  destruct o as [|c' o']; [|rewrite last_cons_cons; by apply IH].
  simpl. intros [= ->]. done.
Qed.

Lemma endswith_period o : Str.endswith [46] o = true -> last o = Some 46.
Proof.
  unfold Str.endswith. rewrite startswith_iff. simpl. intros [post H].
  apply (f_equal (@rev N)) in H. rewrite rev_involutive in H. rewrite H.
  simpl. by rewrite last_snoc.
Qed.

(** X7: the cleaning always ends by appending a period, also to a text that
    ends with one: before it, every period of the text has been given a
    space after it, so the text never ends with a period when the test is
    made.  The result is never empty and ends with a period that is not the
    text's own. *)
Theorem basic_text_cleaning_appends_period (s : str) :
  let body :=
    sub false period_pattern (py ". ")
      (sub false comma_pattern (py ", ")
         (sub false spaces_pattern (py " ") (Str.strip s))) in
  _basic_text_cleaning s = body ++ py "."
  /\ periods_spaced body = true
  /\ Str.endswith (py ".") body = false.
Proof.
  intros body.
  assert (periods_spaced body = true) as Hsp.
  { subst body. replace (py ". ") with [46; 32] by (vm_compute; reflexivity).
    apply sub_at_periods_spaced. }
  assert (Str.endswith (py ".") body = false) as Hend.
  { replace (py ".") with [46] by (vm_compute; reflexivity).
    destruct (Str.endswith [46] body) eqn:E; [|done].
    apply endswith_period in E. by apply periods_spaced_last in Hsp. }
  split; [|done].
  unfold _basic_text_cleaning. cbv zeta. fold body. by rewrite Hend.
Qed.

(** X8: the cleaning changes white space, commas and periods only: the
    other characters of the text are those of the result, in the same
    order. *)
Theorem basic_text_cleaning_keeps_letters (s : str) :
  letters (_basic_text_cleaning s) = letters s.
Proof.
  destruct separator_patterns as (P1 & P2 & P3).
  destruct replacements_seps as (R1 & R2 & R3 & R4).
  assert (letters
            (sub false period_pattern (py ". ")
               (sub false comma_pattern (py ", ")
                  (sub false spaces_pattern (py " ") (Str.strip s))))
          = letters s) as H.
  { rewrite !sub_letters by (try done; by apply letters_seps).
    destruct (strip_split s) as (ws1 & ws2 & Hs & H1 & H2).
    rewrite Hs at 2. rewrite !letters_app.
    by rewrite (letters_seps ws1), (letters_seps ws2), app_nil_r. }
  unfold _basic_text_cleaning. cbv zeta.
  destruct (negb _); [|done].
  by rewrite letters_app, H, (letters_seps (py ".")), app_nil_r.
Qed.

(** ** The endpoint of one description *)

Section EndpointProps.

Variable world : Type.
Variable agent : str -> world -> result str * world.
Variable json_loads : str -> result json.
Variable http_exception_str : Z -> str -> str.

Local Abbreviation parse := (Main.parse_incident world (Some agent) json_loads).
Local Abbreviation item :=
  (Main.item_response world (Some agent) json_loads http_exception_str).
Local Abbreviation batch :=
  (Main.parse_batch_incidents world (Some agent) json_loads http_exception_str).
Local Abbreviation at_ := (world_at world (Some agent) json_loads http_exception_str).

Lemma response_of_answer_cases answer response :
  Main.response_of_answer json_loads answer = Ok response ->
  (exists m, json_loads answer = Ok (JObj m)
     /\ is_Some (m !! py "data_ocorrencia")
     /\ response = Main.IncidentResponse_ (py "success") (Some m) None)
  \/ (exists msg, response = Main.IncidentResponse_ (py "error") None (Some msg)).
Proof.
  unfold Main.response_of_answer.
  destruct (json_loads answer) as [v|e] eqn:E.
  - destruct (not_in (py "data_ocorrencia") v) as [[|]|e] eqn:En; cbn [bind].
    + intros [= <-]. right. eauto.
    + destruct v as [| | | | |m]; try discriminate. intros [= <-]. left.
      exists m. split; [done|]. split; [|done].
      simpl in En. injection En as En. apply bool_decide_eq_false in En.
      destruct (m !! py "data_ocorrencia"); [eauto|done].
    + discriminate.
  - destruct e; try discriminate. intros [= <-]. right. eauto.
Qed.

(** X9: with the agent initialized, the endpoint refuses a description that
    is empty or white space with status 400 before the agent is called; for
    any other description it calls the agent once, with the description as
    it was sent, and never raises.  It answers "success", with the decoded
    object as the record and no error text, when the answer of the agent
    decodes to an object that has the key data_ocorrencia; in every other
    case it answers "error", with an error text and no record.  The model
    named in the request is not read. *)
Theorem parse_incident_outcomes (request : Main.IncidentRequest) (w : world) :
  let called := agent (Main.description request) w in
  (Str.strip (Main.description request) = [] ->
     parse request w
     = (inl (Main.HTTPException 400 (py "Description cannot be empty")), w))
  /\ (Str.strip (Main.description request) <> [] ->
      (forall answer m,
         called.1 = Ok answer ->
         json_loads answer = Ok (JObj m) ->
         is_Some (m !! py "data_ocorrencia") ->
         parse request w
         = (inr (Main.IncidentResponse_ (py "success") (Some m) None), called.2))
      /\ ((forall answer m,
             called.1 = Ok answer ->
             json_loads answer = Ok (JObj m) ->
             m !! py "data_ocorrencia" = None) ->
          exists msg,
            parse request w
            = (inr (Main.IncidentResponse_ (py "error") None (Some msg)), called.2)))
  /\ (forall model',
        parse {| Main.description := Main.description request; Main.model := model' |} w
        = parse request w).
Proof.
  intros called. split; [|split].
  - intros H. unfold Main.parse_incident. by rewrite H.
  - intros H. unfold Main.parse_incident.
    destruct (Str.strip (Main.description request)) as [|c tl]; [done|].
    subst called.
    destruct (agent (Main.description request) w) as [answer w'] eqn:Ea. simpl.
    split.
    + intros text m -> Hl [x Hx]. cbn [bind].
      unfold Main.response_of_answer. rewrite Hl, not_in_obj.
      rewrite bool_decide_eq_false_2 by (by rewrite Hx). done.
    + intros Hno. destruct answer as [text|e]; cbn [bind]; [|eauto].
      destruct (Main.response_of_answer json_loads text) as [response|e] eqn:Er;
        [|eauto].
      destruct (response_of_answer_cases _ _ Er) as [(m & Hl & [x Hx] & ->)|[msg ->]];
        [|eauto].
      rewrite (Hno text m eq_refl Hl) in Hx. discriminate.
  - done.
Qed.

Lemma world_at_step : forall requests j i request w,
  requests !! j = Some request ->
  at_ (S j) i requests w = (item (i + j)%nat request (at_ j i requests w)).2.
Proof.
  induction requests as [|r0 others IH]; intros j i request w Hj; [done|].
  destruct j as [|j].
  - injection Hj as <-. rewrite Nat.add_0_r. by destruct others.
  - simpl in Hj.
    change (at_ (S (S j)) i (r0 :: others) w)
      with (at_ (S j) (S i) others (item i r0 w).2).
    change (at_ (S j) i (r0 :: others) w) with (at_ j (S i) others (item i r0 w).2).
    rewrite (IH j (S i) request _ Hj). by rewrite Nat.add_succ_r.
Qed.

(** X10: in a batch of at most 100 items, an item whose description is empty
    or white space does not stop the batch: its place in the results holds
    an error that names its position, counted from one, followed by the text
    of the refusal of the single endpoint; the agent is not called for it,
    so the items after it are processed as if it were not there. *)
Theorem batch_blank_item (requests : list Main.IncidentRequest) (w : world)
  (j : nat) (request : Main.IncidentRequest) :
  (length requests <= 100)%nat ->
  requests !! j = Some request ->
  Str.strip (Main.description request) = [] ->
  exists results,
    batch requests w = (inr results, at_ (length requests) 0 requests w)
    /\ results !! j =
         Some (Main.IncidentResponse_ (py "error") None
                 (Some (py "Failed to process incident "
                        ++ Str.pad 0 (N.of_nat (j + 1)) ++ py ": "
                        ++ http_exception_str 400 (py "Description cannot be empty"))))
    /\ at_ (S j) 0 requests w = at_ j 0 requests w.
Proof.
  intros Hlen Hj Hblank. unfold Main.parse_batch_incidents.
  apply Nat.ltb_ge in Hlen. rewrite Hlen.
  destruct (batch_loop_spec world (Some agent) json_loads http_exception_str
              requests 0%nat [] w) as (outs & Hl & _ & Hout).
  assert (forall w0, item j request w0
            = (Main.IncidentResponse_ (py "error") None
                 (Some (py "Failed to process incident "
                        ++ Str.pad 0 (N.of_nat (j + 1)) ++ py ": "
                        ++ http_exception_str 400 (py "Description cannot be empty"))),
               w0)) as Hitem.
  { intros w0. unfold Main.item_response, Main.parse_incident. by rewrite Hblank. }
  exists outs. rewrite Hl. split; [done|]. split.
  - rewrite (Hout j request Hj). simpl. by rewrite Hitem.
  - rewrite (world_at_step requests j 0 request w Hj). simpl. by rewrite Hitem.
Qed.

End EndpointProps.

Lemma parse_incident_outcomes_witness :
  Main.parse_incident (list str) (Some (answering_agent without_local_text))
    example_loads (request_for (py "Falha no servidor")) []
  = (inr (Main.IncidentResponse_ (py "success") (Some without_local) None),
     [py "Falha no servidor"]).
Proof.
  pose proof (parse_incident_outcomes (list str) (answering_agent without_local_text)
                example_loads (request_for (py "Falha no servidor")) []) as H.
  cbv zeta in H. destruct H as (_ & H & _).
  destruct H as [H _]; [vm_compute; discriminate|].
  rewrite (H without_local_text without_local).
  - reflexivity.
  - reflexivity.
  - vm_compute. reflexivity.
  - vm_compute. eauto.
Defined.

Lemma batch_blank_item_witness :
  exists results,
    Main.parse_batch_incidents (list str) (Some logging_agent) example_loads http_str
      [request_for (py "Falha na rede"); request_for (py " ")] []
    = (inr results, [py "Falha na rede"])
    /\ results !! 1%nat =
         Some (Main.IncidentResponse_ (py "error") None
                 (Some (py "Failed to process incident 2: Description cannot be empty"))).
Proof.
  destruct (batch_blank_item (list str) logging_agent example_loads http_str
              [request_for (py "Falha na rede"); request_for (py " ")] [] 1
              (request_for (py " "))) as (results & Hr & Hj & _).
  - simpl. lia.
  - reflexivity.
  - vm_compute. reflexivity.
  - exists results. split.
    + rewrite Hr. f_equal; vm_compute; reflexivity.
    + rewrite Hj.
      assert (py "Failed to process incident " ++ Str.pad 0 (N.of_nat (1 + 1))
              ++ py ": " ++ http_str 400 (py "Description cannot be empty")
              = py "Failed to process incident 2: Description cannot be empty") as E
        by (vm_compute; reflexivity).
      rewrite E. reflexivity.
Defined.

(** ** Which part of a message is parsed *)

Lemma tolower_idem c : tolower (tolower c) = tolower c.
Proof.
  assert ((tolower c < 65 \/ 90 < tolower c)
          /\ (tolower c < 192 \/ 222 < tolower c \/ tolower c = 215)
          /\ tolower c <> 376) as H.
  { unfold tolower, in_range.
    repeat match goal with
           | |- context [?a <=? ?b] => destruct (N.leb_spec a b); cbn [andb negb]
           | |- context [?a =? ?b] => destruct (N.eqb_spec a b); cbn [andb negb]
           end; lia. }
  revert H. generalize (tolower c). intros d H. unfold tolower, in_range.
  repeat match goal with
         | |- context [?a <=? ?b] => destruct (N.leb_spec a b); cbn [andb negb]
         | |- context [?a =? ?b] => destruct (N.eqb_spec a b); cbn [andb negb]
         end; lia.
Qed.

Lemma lower_idem s : Str.lower (Str.lower s) = Str.lower s.
Proof.
  unfold Str.lower. rewrite map_map. apply map_ext. intros c. apply tolower_idem.
Qed.

Lemma lower_app s1 s2 : Str.lower (s1 ++ s2) = Str.lower s1 ++ Str.lower s2.
Proof. apply map_app. Qed.

(** A block of a text in lower case is in lower case. *)
Lemma lower_infix r s : infix_of r (Str.lower s) -> Str.lower r = r.
Proof.
  intros (pre & post & H). pose proof (lower_idem s) as Hi. rewrite H in Hi.
  rewrite !lower_app in Hi.
  apply app_inj_1 in Hi as [_ Hi]; [|apply length_map].
  apply app_inj_1 in Hi as [Hi _]; [done|apply length_map].
Qed.

Lemma split_once_spec sep : forall s,
  Str.contains sep s = true ->
  exists pre post,
    Instructions.split_once sep s = [pre; post]
    /\ s = pre ++ sep ++ post
    /\ forall pre' post', s = pre' ++ sep ++ post' -> (length pre <= length pre')%nat.
Proof.
  induction s as [|c tl IH]; intros H.
  - simpl in H. rewrite orb_false_r in H. cbn [Instructions.split_once]. rewrite H.
    apply startswith_iff in H as [post Hp]. exists [], post.
    assert (sep = []) as -> by (destruct sep; [done|discriminate]).
    simpl in Hp. subst post.
    split; [done|]. split; [done|]. intros; simpl; lia.
  - cbn [Instructions.split_once]. cbn [Str.contains] in H.
    destruct (Str.startswith sep (c :: tl)) eqn:E.
    + apply startswith_iff in E as [post Hp]. exists [], (drop (length sep) (c :: tl)).
      split; [done|]. split; [|intros; simpl; lia].
      rewrite Hp at 2. by rewrite drop_app_length.
    + simpl in H. destruct (IH H) as (pre & post & Hs & Htl & Hmin).
      rewrite Hs. exists (c :: pre), post. split; [done|]. split; [by rewrite Htl at 1|].
      intros pre' post' Hd. destruct pre' as [|c' pre''].
      * assert (Str.startswith sep (c :: tl) = true) as E'
          by (apply startswith_iff; eauto). congruence.
      * injection Hd as _ Hd. specialize (Hmin _ _ Hd). simpl. lia.
Qed.

Lemma lstrip_chars_suffix chars s :
  exists pre, s = pre ++ Instructions.lstrip_chars chars s.
Proof.
  induction s as [|c tl [pre IH]]; simpl; [by exists []|].
  destruct (existsb (N.eqb c) chars); [|by exists []].
  exists (c :: pre). by rewrite IH at 1.
Qed.

(** What is taken after a keyword is a block of the message in lower
    case. *)
Lemma extracted_infix post : infix_of (trimmed post) post.
Proof.
  unfold trimmed.
  destruct (strip_split post) as (a1 & a2 & H1 & _).
  destruct (lstrip_chars_suffix (py ":") (Str.strip post)) as [b H2].
  destruct (strip_split (Instructions.lstrip_chars (py ":") (Str.strip post)))
    as (c1 & c2 & H3 & _).
  exists (a1 ++ b ++ c1), (c2 ++ a2).
  rewrite H1 at 1. rewrite H2 at 1. rewrite H3 at 1. by rewrite <- !app_assoc.
Qed.

Lemma tail_after_unique keyword s post1 post2 :
  tail_after keyword s post1 -> tail_after keyword s post2 -> post1 = post2.
Proof.
  intros (pre1 & H1 & M1) (pre2 & H2 & M2).
  pose proof (M1 _ _ H2). pose proof (M2 _ _ H1).
  rewrite H1 in H2. apply app_inj_1 in H2 as [_ H2]; [|lia].
  by apply app_inv_head in H2.
Qed.

Lemma yields_nothing_absent message keyword :
  Str.contains keyword (Str.lower message) = false -> yields_nothing message keyword.
Proof.
  intros H post (pre & Hs & _).
  assert (Str.contains keyword (Str.lower message) = true) as H'
    by (apply contains_iff; eauto).
  congruence.
Qed.

(** The loop over the keywords: the first keyword of the list that gives a
    text decides, and the message is returned as it is when none does. *)
Lemma extract_after_keyword_spec message : forall keywords,
  let r := Instructions.extract_after_keyword keywords message in
  (exists before keyword after,
     keywords = before ++ keyword :: after
     /\ Forall (yields_nothing message) before
     /\ yields message keyword r)
  \/ (Forall (yields_nothing message) keywords /\ r = message).
Proof.
  induction keywords as [|keyword others IH]; [by right|].
  cbn [Instructions.extract_after_keyword]. cbv zeta.
  assert (yields_nothing message keyword ->
          let r := Instructions.extract_after_keyword others message in
          (exists before keyword0 after,
             keyword :: others = before ++ keyword0 :: after
             /\ Forall (yields_nothing message) before
             /\ yields message keyword0 r)
          \/ (Forall (yields_nothing message) (keyword :: others) /\ r = message))
    as Hnext.
  { intros Hn. cbv zeta.
    destruct IH as [(before & k & after & -> & Hb & Hy)|[Hall Hr]].
    - left. exists (keyword :: before), k, after. split; [done|].
      split; [by constructor|done].
    - right. split; [by constructor|done]. }
  destruct (Str.contains keyword (Str.lower message)) eqn:E;
    [|by apply Hnext, yields_nothing_absent].
  destruct (split_once_spec _ _ E) as (pre & post & -> & Hl & Hmin).
  assert (tail_after keyword (Str.lower message) post) as Ht by (exists pre; done).
  fold (trimmed post).
  destruct (trimmed post) as [|c tl] eqn:Ex.
  - apply Hnext. intros post' Ht'.
    by rewrite (tail_after_unique _ _ _ _ Ht' Ht).
  - left. exists [], keyword, others. split; [done|]. split; [constructor|].
    exists post. by rewrite Ex.
Qed.

(** X11: [extract_parsing_text] returns what follows a leading "Parse:",
    trimmed.  Otherwise the keywords are tried in the order of their list on
    the message in lower case: the first keyword that occurs in it with
    something left after its first occurrence, once the white space and the
    colons before it are taken off, decides, and that text is returned: it is
    in lower case, not empty, and what stands before the keyword is left
    out.  When no keyword gives a text the message is returned as it is. *)
Theorem extract_parsing_text_cases (message : str) :
  let r := Instructions.extract_parsing_text message in
  (Str.startswith (py "Parse:") message = true -> r = Str.strip (drop 6 message))
  /\ (Str.startswith (py "Parse:") message = false ->
      (exists before keyword after,
         Instructions.PARSING_KEYWORDS = before ++ keyword :: after
         /\ Forall (yields_nothing message) before
         /\ yields message keyword r
         /\ Str.lower r = r
         /\ infix_of r (Str.lower message))
      \/ (Forall (yields_nothing message) Instructions.PARSING_KEYWORDS
          /\ r = message)).
Proof.
  intros r. subst r. unfold Instructions.extract_parsing_text. split.
  - by intros ->.
  - intros ->.
    destruct (extract_after_keyword_spec message Instructions.PARSING_KEYWORDS)
      as [(before & k & after & Hk & Hb & Hy)|H]; [left|by right].
    exists before, k, after. split; [done|]. split; [done|]. split; [done|].
    destruct Hy as (post & (pre & Hl & _) & Hr & _).
    assert (infix_of (Instructions.extract_after_keyword
                        Instructions.PARSING_KEYWORDS message) (Str.lower message)) as Hi.
    { rewrite Hr, Hl. apply infix_of_app_r, infix_of_app_r, extracted_infix. }
    split; [exact (lower_infix _ _ Hi)|exact Hi].
Qed.

Example extract_parsing_text_examples :
  Instructions.extract_parsing_text (py "Parse:  Falha ") = py "Falha"
  /\ Instructions.extract_parsing_text (py "Favor extrair: Falha no Servidor")
     = py "falha no servidor"
  /\ Instructions.extract_parsing_text (py "Hello world") = py "Hello world".
Proof. repeat split; vm_compute; reflexivity. Qed.

(** ** The agent behind the endpoint *)

Lemma incident_record_fields d l ty im :
  incident_record d l ty im = JObj (record_fields d l ty im).
Proof. done. Qed.

(** The record of the parser always has a date: it comes from the
    extractor, or from the validation of the fields. *)
Lemma parser_record_has_date json_loads post env now t url model :
  not_in (py "data_ocorrencia")
    (incident (parse_incident_structure json_loads post env now t url model))
  = Ok false.
Proof.
  assert (py "data_ocorrencia" ∈ required_fields) as Hin by left.
  destruct (parse_incident_structure_cases json_loads post env now t url model)
    as [[err ->]|(s & parsed & v & _ & Hf & ->)].
  - destruct (fallback_four_texts now t err) as (m & -> & Hdom & _).
    rewrite not_in_obj. f_equal. apply bool_decide_eq_false.
    assert (py "data_ocorrencia" ∈ dom m) as Hd.
    { rewrite Hdom. apply elem_of_list_to_set. exact Hin. }
    apply elem_of_dom in Hd as [x Hx]. by rewrite Hx.
  - simpl. exact (fill_required_has _ _ _ Hf _ Hin).
Qed.

Section AgentEndpoint.

Variable json_loads : str -> result json.
Variable json_dumps : json -> str.
Variable post : request -> reply.
Variable env_ollama_url : option str.
Variable INSTRUCTIONS_AVAILABLE : bool.
Variable model : str.

Local Abbreviation agent :=
  (clock_agent json_loads json_dumps post env_ollama_url INSTRUCTIONS_AVAILABLE model).
Local Abbreviation parse := (Main.parse_incident datetime (Some agent) json_loads).
Local Abbreviation parser now incident_text :=
  (parse_incident_structure json_loads post env_ollama_url now incident_text
     (Some (Agent.ollama_url env_ollama_url)) model).

(** What the agent answers is the text of [answer_value], with the
    instructions or without them; the handler of [process_message] never
    runs. *)
Lemma process_message_value now message :
  Agent.process_message json_loads json_dumps post env_ollama_url
    INSTRUCTIONS_AVAILABLE model now message
  = json_dumps (answer_value json_loads post env_ollama_url INSTRUCTIONS_AVAILABLE
                  model now message).
Proof using Type.
  unfold Agent.process_message, Agent.process_try, answer_value.
  destruct (Agent.incident_text_of INSTRUCTIONS_AVAILABLE message) as [t|]; [|done].
  cbv zeta.
  destruct (bool_decide _); unfold Agent.error_response,
    Instructions.get_error_response, Instructions.format_json_response;
    by destruct INSTRUCTIONS_AVAILABLE.
Qed.

Lemma parse_with_agent request now v :
  Str.strip (Main.description request) <> [] ->
  answer_value json_loads post env_ollama_url INSTRUCTIONS_AVAILABLE model now
    (Main.description request) = v ->
  json_loads (json_dumps v) = Ok v ->
  parse request now =
    match Main.response_of_answer json_loads (json_dumps v) with
    | Ok response => (inr response, now)
    | Raise e =>
        (inr (Main.IncidentResponse_ (py "error") None
                (Some (py "Processing failed: " ++ exn_str e))), now)
    end.
Proof using Type.
  intros Hne Hv Hl. unfold Main.parse_incident.
  destruct (Str.strip (Main.description request)) as [|c tl]; [done|].
  unfold clock_agent. rewrite process_message_value, Hv. cbn [bind]. done.
Qed.

(** X12: a message that the agent does not take for an incident (no
    "Parse:", no keyword, no indicator) gets the help message, and the
    endpoint turns it into an error: the help message decodes to an object
    that has no key data_ocorrencia of its own. *)
Theorem agent_help_is_endpoint_error (request : Main.IncidentRequest)
  (now : datetime) :
  Str.strip (Main.description request) <> [] ->
  Agent.incident_text_of INSTRUCTIONS_AVAILABLE (Main.description request) = None ->
  json_loads (json_dumps Agent.help_msg) = Ok Agent.help_msg ->
  Agent.process_message json_loads json_dumps post env_ollama_url
    INSTRUCTIONS_AVAILABLE model now (Main.description request)
  = json_dumps Agent.help_msg
  /\ parse request now =
       (inr (Main.IncidentResponse_ (py "error") None
               (Some (py "Invalid incident description. Please provide a clear incident description."))),
        now).
Proof using Type.
  intros Hne Hgate Hl.
  assert (answer_value json_loads post env_ollama_url INSTRUCTIONS_AVAILABLE model now
            (Main.description request) = Agent.help_msg) as Hv.
  { unfold answer_value. by rewrite Hgate. }
  split; [by rewrite process_message_value, Hv|].
  rewrite (parse_with_agent request now _ Hne Hv Hl).
  unfold Main.response_of_answer. rewrite Hl.
  replace (not_in (py "data_ocorrencia") Agent.help_msg) with (Ok true)
    by (vm_compute; reflexivity).
  done.
Qed.

(** X13: when the parser answers with an error for the text that the agent
    hands to it, the endpoint does not: the agent writes an error record,
    which has the key data_ocorrencia, and the endpoint answers "success"
    with this record, whose type is "Erro no processamento" and whose impact
    is "Erro: " followed by the message of the parser. *)
Theorem agent_error_is_endpoint_success (request : Main.IncidentRequest)
  (now : datetime) (incident_text : str) :
  Str.strip (Main.description request) <> [] ->
  Agent.incident_text_of INSTRUCTIONS_AVAILABLE (Main.description request)
    = Some incident_text ->
  status (parser now incident_text) <> py "success" ->
  let impacto :=
    py "Erro: " ++ default (py "Unknown parsing error")
                     (message (parser now incident_text)) in
  let fields :=
    record_fields (strftime_minute now) (py "N/A") (py "Erro no processamento")
      impacto in
  json_loads (json_dumps (JObj fields)) = Ok (JObj fields) ->
  parse request now
  = (inr (Main.IncidentResponse_ (py "success") (Some fields) None), now).
Proof using Type.
  intros Hne Hgate Hst impacto fields Hl.
  assert (answer_value json_loads post env_ollama_url INSTRUCTIONS_AVAILABLE model now
            (Main.description request) = JObj fields) as Hv.
  { unfold answer_value. rewrite Hgate. cbv zeta.
    by rewrite bool_decide_eq_false_2. }
  rewrite (parse_with_agent request now _ Hne Hv Hl).
  unfold Main.response_of_answer. rewrite Hl. rewrite not_in_obj.
  replace (bool_decide (fields !! py "data_ocorrencia" = None)) with false; [done|].
  symmetry. apply bool_decide_eq_false. subst fields. unfold record_fields.
  by rewrite lookup_insert_eq.
Qed.

(** X14: when the parser answers with a success and an object for the text
    that the agent hands to it, the endpoint answers "success" with this
    very object, provided the text that the agent writes decodes to it. *)
Theorem agent_success_is_endpoint_success (request : Main.IncidentRequest)
  (now : datetime) (incident_text : str) (fields : gmap str json) :
  Str.strip (Main.description request) <> [] ->
  Agent.incident_text_of INSTRUCTIONS_AVAILABLE (Main.description request)
    = Some incident_text ->
  status (parser now incident_text) = py "success" ->
  incident (parser now incident_text) = JObj fields ->
  json_loads (json_dumps (JObj fields)) = Ok (JObj fields) ->
  parse request now
  = (inr (Main.IncidentResponse_ (py "success") (Some fields) None), now)
  /\ forall field, field ∈ required_fields -> is_Some (fields !! field).
Proof using Type.
  intros Hne Hgate Hst Hrec Hl.
  assert (answer_value json_loads post env_ollama_url INSTRUCTIONS_AVAILABLE model now
            (Main.description request) = JObj fields) as Hv.
  { unfold answer_value. rewrite Hgate. cbv zeta.
    by rewrite bool_decide_eq_true_2. }
  split.
  - rewrite (parse_with_agent request now _ Hne Hv Hl).
    unfold Main.response_of_answer. rewrite Hl.
    pose proof (parser_record_has_date json_loads post env_ollama_url now
                  incident_text (Some (Agent.ollama_url env_ollama_url)) model) as Hd.
    rewrite Hrec in Hd. by rewrite Hd.
  - intros field Hin.
    destruct (parse_incident_structure_cases json_loads post env_ollama_url now
                incident_text (Some (Agent.ollama_url env_ollama_url)) model)
      as [[err Hr]|(s & parsed & v & _ & Hf & Hr)]; cbv zeta in Hr.
    + destruct (fallback_four_texts now incident_text err) as (m & Hm & Hdom & _).
      rewrite <- Hr, Hrec in Hm. injection Hm as <-.
      apply elem_of_dom. rewrite Hdom. by apply elem_of_list_to_set.
    + rewrite Hr in Hrec. simpl in Hrec. subst v.
      pose proof (fill_required_has _ _ _ Hf _ Hin) as Hh.
      rewrite not_in_obj in Hh. injection Hh as Hh.
      apply bool_decide_eq_false in Hh.
      destruct (fields !! field); [eauto|done].
Qed.

End AgentEndpoint.

Lemma agent_help_is_endpoint_error_witness :
  Main.parse_incident datetime
    (Some (clock_agent (loads_as help_text Agent.help_msg) (dumps_as help_text)
             unreachable None true (py "tinyllama")))
    (loads_as help_text Agent.help_msg) (request_for (py "Hello world")) now0
  = (inr (Main.IncidentResponse_ (py "error") None
            (Some (py "Invalid incident description. Please provide a clear incident description."))),
     now0).
Proof.
  refine (proj2 (agent_help_is_endpoint_error (loads_as help_text Agent.help_msg)
                   (dumps_as help_text) unreachable None true (py "tinyllama")
                   (request_for (py "Hello world")) now0 _ _ _)).
  - vm_compute. discriminate.
  - vm_compute. reflexivity.
  - vm_compute. reflexivity.
Defined.

Lemma agent_error_is_endpoint_success_witness :
  exists fields,
    Main.parse_incident datetime
      (Some (clock_agent
               (loads_as
                  (record_text [] (py "2025-09-07 10:30") (py "N/A")
                     (py "Erro no processamento")
                     (py "Erro: Parsing failed: All connection attempts failed"))
                  (incident_record (py "2025-09-07 10:30") (py "N/A")
                     (py "Erro no processamento")
                     (py "Erro: Parsing failed: All connection attempts failed")))
               (dumps_as
                  (record_text [] (py "2025-09-07 10:30") (py "N/A")
                     (py "Erro no processamento")
                     (py "Erro: Parsing failed: All connection attempts failed")))
               unreachable None true (py "tinyllama")))
      (loads_as
         (record_text [] (py "2025-09-07 10:30") (py "N/A")
            (py "Erro no processamento")
            (py "Erro: Parsing failed: All connection attempts failed"))
         (incident_record (py "2025-09-07 10:30") (py "N/A")
            (py "Erro no processamento")
            (py "Erro: Parsing failed: All connection attempts failed")))
      (request_for (py "Falha no servidor às 30h")) now0
    = (inr (Main.IncidentResponse_ (py "success") (Some fields) None), now0)
    /\ fields !! py "tipo_incidente" = Some (JStr (py "Erro no processamento")).
Proof.
  eexists. split.
  - refine (agent_error_is_endpoint_success _ _ unreachable None true (py "tinyllama")
              (request_for (py "Falha no servidor às 30h")) now0
              (py "Falha no servidor às 30h") _ _ _ _).
    + vm_compute. discriminate.
    + vm_compute. reflexivity.
    + vm_compute. discriminate.
    + vm_compute. reflexivity.
  - vm_compute. reflexivity.
Defined.

Lemma agent_success_is_endpoint_success_witness :
  exists fields,
    Main.parse_incident datetime
      (Some (clock_agent
               (loads_as
                  (record_text [] (py "2025-09-06 14:00") (py "servidor")
                     (py "Falha no servidor") (py "Falha no servidor, ontem às 14h"))
                  (incident_record (py "2025-09-06 14:00") (py "servidor")
                     (py "Falha no servidor") (py "Falha no servidor, ontem às 14h")))
               (dumps_as
                  (record_text [] (py "2025-09-06 14:00") (py "servidor")
                     (py "Falha no servidor") (py "Falha no servidor, ontem às 14h")))
               unreachable None true (py "tinyllama")))
      (loads_as
         (record_text [] (py "2025-09-06 14:00") (py "servidor")
            (py "Falha no servidor") (py "Falha no servidor, ontem às 14h"))
         (incident_record (py "2025-09-06 14:00") (py "servidor")
            (py "Falha no servidor") (py "Falha no servidor, ontem às 14h")))
      (request_for (py "Falha no servidor, ontem às 14h")) now0
    = (inr (Main.IncidentResponse_ (py "success") (Some fields) None), now0)
    /\ fields !! py "local" = Some (JStr (py "servidor")).
Proof.
  eexists. split.
  - refine (proj1 (agent_success_is_endpoint_success _ _ unreachable None true
                     (py "tinyllama")
                     (request_for (py "Falha no servidor, ontem às 14h")) now0
                     (py "Falha no servidor, ontem às 14h")
                     (record_fields (py "2025-09-06 14:00") (py "servidor")
                        (py "Falha no servidor")
                        (py "Falha no servidor, ontem às 14h")) _ _ _ _ _)).
    + vm_compute. discriminate.
    + vm_compute. reflexivity.
    + vm_compute. reflexivity.
    + vm_compute. reflexivity.
    + vm_compute. reflexivity.
  - vm_compute. reflexivity.
Defined.

